(** * RayTracing: the [Drawing] helper of [raytracing/drawing.py]

    A [Drawing] groups matplotlib patches, places them on an [Axes] at a data
    coordinate and rescales them with the current view.  The development
    embeds the class as state-passing code over a small object store and
    proves the properties its specification states.

    Python numbers are kept abstract behind the interface [FloatOps]; the
    general results hold for every interpretation of the arithmetic.  The
    worked numerical example is evaluated in the instance of the real numbers. *)

From Stdlib Require Import QArith Reals Qreals Lra.
From stdpp Require Import base option list gmap.

Close Scope Q_scope.
Close Scope R_scope.

(** ** Numbers *)

(** The arithmetic the module uses on floats: literals, [-], [*], [/], [**],
    and the binary maximum and minimum that [np.max] and [np.min] reduce with. *)
Class FloatOps (F : Type) := {
  lit : Q → F;
  fsub : F → F → F;
  fmul : F → F → F;
  fdiv : F → F → F;
  fpow : F → F → F;
  fmax : F → F → F;
  fmin : F → F → F
}.

(** ** Exceptions *)

Inductive PyError :=
| AttributeError        (* attribute access on [None] *)
| ValueError            (* zero-size reduction, [list.remove] of an absent item, Axes reset *)
| TypeError             (* arithmetic on [None] *)
| NotImplementedError.  (* [Artist.remove] on an artist that was never added *)

Inductive Outcome (A : Type) :=
| Return (v : A)
| Raise (e : PyError).
Arguments Return {A} v.
Arguments Raise {A} e.

#[global] Instance Outcome_ret : MRet Outcome := @Return.
#[global] Instance Outcome_bind : MBind Outcome := λ A B k m,
  match m with
  | Return v => k v
  | Raise e => Raise e
  end.

(** Object identities. *)
Definition PatchId := nat.
Definition AxesId := nat.

Section Model.
Context {F : Type} `{!FloatOps F}.

(** ** The host library's objects *)

(** [transforms.Affine2D()] and its in-place builders. *)
Inductive Affine :=
| Affine2D
| scale (m : Affine) (sx sy : F)
| translate (m : Affine) (tx ty : F).

(** A transform node; [Composite t1 t2] is [t1 + t2] (first [t1], then [t2]),
    [transData a] is the live data-to-screen transform of Axes [a]. *)
Inductive Transform :=
| Affine2DBase (m : Affine)
| transData (a : AxesId)
| Composite (t1 t2 : Transform).

(** A patch: its untransformed vertices, the transform assigned with
    [set_transform] ([None] until one is set), the Axes it belongs to, and
    the Axes whose child list its remove method is bound to. *)
Record Patch := mkPatch {
  get_xy : list (F * F);
  get_transform : option Transform;
  artist_axes : option AxesId;
  remove_method : option AxesId
}.

(** An Axes: [viewLim.bounds], that is (x0, y0, width, height), and the
    list of registered children. *)
Record Axes := mkAxes {
  viewLim_bounds : F * F * F * F;
  children : list PatchId
}.

(** The attributes of a [Drawing] instance. *)
Record Drawing := mkDrawing {
  components : list PatchId;
  axes : option AxesId;
  pos_x : option F;      (* self.x *)
  pos_y : option F       (* self.y *)
}.

(** The store: [self] and every patch and Axes reachable from it.  Stores are
    read totally, a reference never dangles; an identity never written
    denotes a blank object. *)
Record State := mkState {
  self : Drawing;
  patches : gmap PatchId Patch;
  figure : gmap AxesId Axes
}.

#[global] Instance Patch_inhabited : Inhabited Patch :=
  populate (mkPatch [] None None None).
#[global] Instance Axes_inhabited : Inhabited Axes :=
  populate (mkAxes (lit 0, lit 0, lit 1, lit 1) []).

Definition patch (s : State) (p : PatchId) : Patch := patches s !!! p.
Definition the_axes (s : State) (a : AxesId) : Axes := figure s !!! a.

Definition with_self (d : Drawing) (s : State) : State :=
  mkState d (patches s) (figure s).
Definition with_patch (p : PatchId) (v : Patch) (s : State) : State :=
  mkState (self s) (<[p := v]> (patches s)) (figure s).
Definition with_axes (a : AxesId) (v : Axes) (s : State) : State :=
  mkState (self s) (patches s) (<[a := v]> (figure s)).

(** ** Methods run in a state and exception monad *)

(** An exception leaves the store as it is at the point of the raise. *)
Definition Py (A : Type) : Type := State → Outcome A * State.

#[global] Instance Py_ret : MRet Py := λ A v s, (Return v, s).
#[global] Instance Py_bind : MBind Py := λ A B k m s,
  match m s with
  | (Return v, s') => k v s'
  | (Raise e, s') => (Raise e, s')
  end.

Definition lift {A} (o : Outcome A) : Py A := λ s, (o, s).
Definition gets {A} (f : State → A) : Py A := λ s, (Return (f s), s).
Definition modify (f : State → State) : Py unit := λ s, (Return (), f s).

(** [for v in l: body(v)] *)
Fixpoint for_each {A} (l : list A) (body : A → Py unit) : Py unit :=
  match l with
  | [] => mret ()
  | v :: l' => body v ≫= λ _, for_each l' body
  end.

(** *** numpy reductions *)

(** [np.max] / [np.min] of a one-dimensional array: a zero-size array has no
    identity to reduce from. *)
Definition reduce (op : F → F → F) (l : list F) : Outcome F :=
  match l with
  | [] => Raise ValueError
  | v :: vs => Return (foldl op v vs)
  end.

Definition np_max : list F → Outcome F := reduce fmax.
Definition np_min : list F → Outcome F := reduce fmin.

(** [np.max(xy, axis=0)] on an (N, 2) array: the two column-wise maxima. *)
Definition np_max_axis0 (xy : list (F * F)) : Outcome (F * F) :=
  c0 ← np_max xy.*1; c1 ← np_max xy.*2; Return (c0, c1).
Definition np_min_axis0 (xy : list (F * F)) : Outcome (F * F) :=
  c0 ← np_min xy.*1; c1 ← np_min xy.*2; Return (c0, c1).

(** *** matplotlib operations *)

(** [self.axes.<attr>]: fails on [None]. *)
Definition self_axes : Py AxesId := λ s,
  match axes (self s) with
  | Some a => (Return a, s)
  | None => (Raise AttributeError, s)
  end.

(** [transforms.Affine2D().translate(tx, ty)] *)
Definition Affine2D_translate (tx ty : option F) : Outcome Affine :=
  match tx, ty with
  | Some vx, Some vy => Return (translate Affine2D vx vy)
  | _, _ => Raise TypeError
  end.

(** [component.set_transform(t)] *)
Definition set_transform (p : PatchId) (t : Transform) : Py unit :=
  modify (λ s,
    let P := patch s p in
    with_patch p (mkPatch (get_xy P) (Some t) (artist_axes P) (remove_method P)) s).

(** [l.remove(v)]: drops the first occurrence. *)
Fixpoint list_remove (v : PatchId) (l : list PatchId) : option (list PatchId) :=
  match l with
  | [] => None
  | w :: l' => if decide (v = w) then Some l' else (w ::.) <$> list_remove v l'
  end.

(** [axes.add_patch(p)]: an artist cannot move to another Axes; a patch
    without a transform gets [transData]; the patch is appended to the
    children and its remove method bound to them. *)
Definition add_patch (a : AxesId) (p : PatchId) : Py unit := λ s,
  let P := patch s p in
  let A := the_axes s a in
  let accept :=
    (Return (),
     with_axes a (mkAxes (viewLim_bounds A) (children A ++ [p]))
       (with_patch p
          (mkPatch (get_xy P)
             (Some (default (transData a) (get_transform P)))
             (Some a) (Some a)) s)) in
  match artist_axes P with
  | None => accept
  | Some a' => if decide (a' = a) then accept else (Raise ValueError, s)
  end.

(** [component.remove()]: needs a remove method, which takes the patch out of
    the bound child list, and then detaches the patch from its Axes. *)
Definition Artist_remove (p : PatchId) : Py unit := λ s,
  let P := patch s p in
  match remove_method P with
  | None => (Raise NotImplementedError, s)
  | Some a =>
      let A := the_axes s a in
      match list_remove p (children A) with
      | None => (Raise ValueError, s)
      | Some l =>
          (Return (),
           with_patch p (mkPatch (get_xy P) (get_transform P) None (remove_method P))
             (with_axes a (mkAxes (viewLim_bounds A) l) s))
      end
  end.

(** ** The class [Drawing] *)

(** [__init__]: the components are stored, Axes and position are [None]. *)
Definition init (cs : list PatchId) : Drawing := mkDrawing cs None None None.

(** [axesToDataScale]: [self.axes.viewLim.bounds[2:]] *)
Definition axesToDataScale : Py (F * F) :=
  a ← self_axes;
  '(_, _, xScale, yScale) ← gets (λ s, viewLim_bounds (the_axes s a));
  mret (xScale, yScale).

(** The loop of [height]: one top and one bottom per component. *)
Fixpoint height_loop (cs : list PatchId) (top bottom : list F)
  : Py (list F * list F) :=
  match cs with
  | [] => mret (top, bottom)
  | component :: cs' =>
      xy ← gets (λ s, get_xy (patch s component));
      hi ← lift (np_max_axis0 xy);
      lo ← lift (np_min_axis0 xy);
      height_loop cs' (top ++ [hi.2]) (bottom ++ [lo.2])
  end.

Definition height : Py F :=
  cs ← gets (λ s, components (self s));
  '(top, bottom) ← height_loop cs [] [];
  t ← lift (np_max top);
  b ← lift (np_min bottom);
  mret (fsub t b).

Definition scaling : Py (F * F) :=
  '(xScale, yScale) ← axesToDataScale;
  h ← height;
  let heightFactor := fdiv h yScale in
  let xScaling :=
    fmul xScale (fpow (fdiv heightFactor (lit (2 # 10))) (fdiv (lit 3) (lit 4))) in
  mret (xScaling, lit 1).

Definition set_x (v : F) : Py unit :=
  modify (λ s, let d := self s in
               with_self (mkDrawing (components d) (axes d) (Some v) (pos_y d)) s).
Definition set_y (v : F) : Py unit :=
  modify (λ s, let d := self s in
               with_self (mkDrawing (components d) (axes d) (pos_x d) (Some v)) s).

Definition update (x y : option F) : Py unit :=
  _ ← (if x is Some v then set_x v else mret ());
  _ ← (if y is Some v then set_y v else mret ());
  '(xScaling, yScaling) ← scaling;
  sx ← gets (λ s, pos_x (self s));
  sy ← gets (λ s, pos_y (self s));
  translation ← lift (Affine2D_translate sx sy);
  let scaling := scale Affine2D xScaling yScaling in
  cs ← gets (λ s, components (self s));
  for_each cs (λ component,
    a ← self_axes;
    set_transform component
      (Composite (Composite (Affine2DBase scaling) (Affine2DBase translation))
                 (transData a))).

Definition applyTo (a : AxesId) (x y : F) : Py unit :=
  _ ← modify (λ s, with_self (mkDrawing (components (self s)) (Some a) (Some x) (Some y)) s);
  _ ← update None None;
  cs ← gets (λ s, components (self s));
  for_each cs (λ component,
    a' ← self_axes;
    add_patch a' component).

Definition remove : Py unit :=
  cs ← gets (λ s, components (self s));
  for_each cs Artist_remove.

(** ** The specification's vocabulary *)

(** The greatest and the least element of a list, when it has one. *)
Definition maximum (l : list F) : option F :=
  match l with
  | [] => None
  | v :: vs => Some (foldl fmax v vs)
  end.
Definition minimum (l : list F) : option F :=
  match l with
  | [] => None
  | v :: vs => Some (foldl fmin v vs)
  end.

(** The extreme vertical coordinates of one component's vertices. *)
Definition vertical_max (vs : list (F * F)) : option F := maximum vs.*2.
Definition vertical_min (vs : list (F * F)) : option F := minimum vs.*2.

(** Intrinsic height: the maximum over all components of the component's
    vertical maximum, minus the minimum over all components of the
    component's vertical minimum. *)
Definition highest (vss : list (list (F * F))) : option F :=
  mapM vertical_max vss ≫= maximum.
Definition lowest (vss : list (list (F * F))) : option F :=
  mapM vertical_min vss ≫= minimum.
Definition intrinsic_height (vss : list (list (F * F))) : option F :=
  t ← highest vss; b ← lowest vss; Some (fsub t b).

(** The untransformed vertex arrays of the components, in order. *)
Definition vertices (s : State) : list (list (F * F)) :=
  (λ c, get_xy (patch s c)) <$> components (self s).

(** The visible data-space extents of an Axes. *)
Definition viewWidth (A : Axes) : F := (viewLim_bounds A).1.2.
Definition viewHeight (A : Axes) : F := (viewLim_bounds A).2.

(** Section 4.1: heightFactor = intrinsicHeight / viewHeight, horizontal
    scale = viewWidth * (heightFactor / 0.2) ** (3/4). *)
Definition heightFactor (intrinsicHeight vh : F) : F := fdiv intrinsicHeight vh.
Definition horizontal_scale (vw vh intrinsicHeight : F) : F :=
  fmul vw (fpow (fdiv (heightFactor intrinsicHeight vh) (lit (2 # 10)))
                (fdiv (lit 3) (lit 4))).

(** scale(sx, 1), then translate(x, y), then the canvas's data-to-screen map. *)
Definition placement (sx x y : F) (a : AxesId) : Transform :=
  Composite
    (Composite (Affine2DBase (scale Affine2D sx (lit 1)))
               (Affine2DBase (translate Affine2D x y)))
    (transData a).

(** The position after [update(x, y)]: a given coordinate overwrites the
    stored one, an omitted one keeps it. *)
Definition moved (x y : option F) (d : Drawing) : Drawing :=
  mkDrawing (components d) (axes d)
    (if x is Some v then Some v else pos_x d)
    (if y is Some v then Some v else pos_y d).

(** A patch after [set_transform(t)], and a store after [set_transform(t)]
    on each patch of a list in turn. *)
Definition retransform (t : Transform) (P : Patch) : Patch :=
  mkPatch (get_xy P) (Some t) (artist_axes P) (remove_method P).
Definition transform_all (t : Transform) (cs : list PatchId) (s : State) : State :=
  foldl (λ s c, with_patch c (retransform t (patch s c)) s) s cs.

(** How often a patch occurs in a list of patches. *)
Definition occurrences (c : PatchId) (l : list PatchId) : nat :=
  count_occ Nat.eq_dec l c.

(** The Drawing is attached to Axes [a] at position (x, y). *)
Definition attached (s : State) (a : AxesId) (x y : F) : Prop :=
  axes (self s) = Some a ∧ pos_x (self s) = Some x ∧ pos_y (self s) = Some y.

(** The components are on Axes [a] as [applyTo] puts them there: each one
    removes itself from [a], and [a] lists it as often as the Drawing does. *)
Definition registered (s : State) (a : AxesId) : Prop :=
  Forall (λ c, remove_method (patch s c) = Some a
               ∧ occurrences c (children (the_axes s a))
                 = occurrences c (components (self s)))
         (components (self s)).

(** The view of an Axes changes (zoom, pan): new [viewLim.bounds]. *)
Definition set_viewLim (a : AxesId) (bounds : F * F * F * F) (s : State) : State :=
  with_axes a (mkAxes bounds (children (the_axes s a))) s.

(** The Drawing has been applied to Axes [a]: [applyTo] returned, on an
    Axes that did not hold the components yet, and any number of calls of
    [update] and of changes of view followed. *)
Inductive applied (a : AxesId) : State → Prop :=
| applied_applyTo s x y s' :
    (∀ c, c ∈ components (self s) → c ∉ children (the_axes s a)) →
    applyTo a x y s = (Return (), s') →
    applied a s'
| applied_update s x y :
    applied a s → applied a (update x y s).2
| applied_view s a' bounds :
    applied a s → applied a (set_viewLim a' bounds s).

(** What registering patches leaves alone. *)
Definition add_patch_frame (s s' : State) : Prop :=
  self s' = self s
  ∧ (∀ c, get_xy (patch s' c) = get_xy (patch s c))
  ∧ (∀ c t, get_transform (patch s c) = Some t → get_transform (patch s' c) = Some t)
  ∧ (∀ a, viewLim_bounds (the_axes s' a) = viewLim_bounds (the_axes s a)).

(** The state in which [applyTo] calls [update]. *)
Definition placed (a : AxesId) (x y : F) (s : State) : State :=
  with_self (mkDrawing (components (self s)) (Some a) (Some x) (Some y)) s.

(** Every component has at least one vertex. *)
Definition has_vertices (s : State) : Prop :=
  Forall (λ c, get_xy (patch s c) ≠ []) (components (self s)).

(** The argument of a later call of [update] over that of an earlier one:
    a given coordinate wins, an omitted one lets the earlier one through. *)
Definition or_else (later earlier : option F) : option F :=
  if later is Some v then Some v else earlier.

(** What [remove] leaves alone: the Drawing's attributes, the views, and in
    every patch the vertices, the transform and the remove method. *)
Definition remove_frame (s s' : State) : Prop :=
  self s' = self s
  ∧ (∀ a, viewLim_bounds (the_axes s' a) = viewLim_bounds (the_axes s a))
  ∧ (∀ c, get_xy (patch s' c) = get_xy (patch s c)
          ∧ get_transform (patch s' c) = get_transform (patch s c)
          ∧ remove_method (patch s' c) = remove_method (patch s c)).

(** What [update] leaves alone in a patch: everything but its transform. *)
Definition same_but_transform (P Q : Patch) : Prop :=
  get_xy P = get_xy Q ∧ artist_axes P = artist_axes Q
  ∧ remove_method P = remove_method Q.

End Model.

(** ** Real arithmetic *)

(** Floats read as the real numbers they approximate. *)
#[global] Instance R_FloatOps : FloatOps R := {|
  lit := Q2R;
  fsub := Rminus;
  fmul := Rmult;
  fdiv := Rdiv;
  fpow := Rpower;
  fmax := Rmax;
  fmin := Rmin
|}.

(** ** A lens on a 10 by 10 view *)

(** Two arrows drawn from the origin down to y = -5, as in the class's
    docstring, here with the outline of a thin triangle each. *)
Definition arrowUp : @Patch R :=
  mkPatch [(0, 0); (-0.05, -5); (0.05, -5)]%R None None None.
Definition arrowDown : @Patch R :=
  mkPatch [(-0.05, 0); (0.05, 0); (0, -5)]%R None None None.

(** An Axes showing x and y from -5 to 5. *)
Definition canvas : @Axes R := mkAxes (-5, -5, 10, 10)%R [].

(** [lensDrawing = Drawing(arrowUp, arrowDown)], not applied yet. *)
Definition lens : @State R :=
  mkState (init [0; 1]) {[ 0 := arrowUp; 1 := arrowDown ]} {[ 0 := canvas ]}.

(** A Drawing without components, after a failed [applyTo(axes)]. *)
Definition hollow : @State R :=
  mkState (mkDrawing [] (Some 0) (Some 0%R) (Some 0%R)) ∅ {[ 0 := canvas ]}.

(** The lens applied at (3, 4). *)
Definition lens_applied : @State R := (applyTo 0 3%R 4%R lens).2.

(** The view zoomed out to 20 by 20 after that. *)
Definition lens_zoomed : @State R :=
  set_viewLim 0 (-10, -10, 20, 20)%R lens_applied.

(** * Properties *)

Section Properties.
Context {F : Type} `{!FloatOps F}.
Implicit Types (s : @State F) (d : @Drawing F) (c p : PatchId) (a : AxesId).

(** ** Running the monad *)

Lemma Py_bind_unfold {A B} (m : Py A) (k : A → Py B) s :
  (m ≫= k) s =
    match m s with
    | (Return v, s') => k v s'
    | (Raise e, s') => (Raise e, s')
    end.
Proof. reflexivity. Qed.

Lemma Py_ret_unfold {A} (v : A) s : (mret v : Py A) s = (Return v, s).
Proof. reflexivity. Qed.

(** Runs the plumbing of [Py] as far as the state is known. *)
Ltac run :=
  repeat first
    [ rewrite Py_bind_unfold
    | rewrite Py_ret_unfold
    | progress unfold lift, gets, modify
    | progress cbn ].

(** ** [height] reads vertices only *)

Lemma height_loop_run cs top bottom s :
  height_loop cs top bottom s =
    (match mapM vertical_max ((λ c, get_xy (patch s c)) <$> cs),
           mapM vertical_min ((λ c, get_xy (patch s c)) <$> cs) with
     | Some ts, Some bs => Return (top ++ ts, bottom ++ bs)
     | _, _ => Raise ValueError
     end, s).
Proof.
  revert top bottom. induction cs as [|c cs IH]; intros top bottom.
  - cbn. by rewrite !app_nil_r.
  - cbn [height_loop fmap list_fmap mapM]. run.
    destruct (get_xy (patch s c)) as [|[vx vy] xy] eqn:E.
    + reflexivity.
    + change (np_max_axis0 ((vx, vy) :: xy))
        with (Return (foldl fmax vx xy.*1, foldl fmax vy xy.*2)).
      change (np_min_axis0 ((vx, vy) :: xy))
        with (Return (foldl fmin vx xy.*1, foldl fmin vy xy.*2)).
      change (vertical_max ((vx, vy) :: xy)) with (Some (foldl fmax vy xy.*2)).
      change (vertical_min ((vx, vy) :: xy)) with (Some (foldl fmin vy xy.*2)).
      run. rewrite IH.
      destruct (mapM vertical_max _), (mapM vertical_min _); cbn;
        by rewrite <- ?app_assoc.
Qed.

Lemma height_run s :
  height s =
    (from_option Return (Raise ValueError) (intrinsic_height (vertices s)), s).
Proof.
  unfold height, intrinsic_height, highest, lowest, vertices.
  run. rewrite height_loop_run.
  destruct (mapM vertical_max _) as [ts|]; [|done].
  destruct (mapM vertical_min _) as [bs|]; [|by destruct ts].
  run. by destruct ts, bs.
Qed.

(** ** Assigning one transform to a list of patches *)

Lemma transform_all_cons t c cs s :
  transform_all t (c :: cs) s =
    transform_all t cs (with_patch c (retransform t (patch s c)) s).
Proof. reflexivity. Qed.

Lemma transform_all_self t cs s : self (transform_all t cs s) = self s.
Proof.
  revert s. induction cs as [|c cs IH]; intros s; [done|].
  by rewrite transform_all_cons, IH.
Qed.

Lemma transform_all_figure t cs s : figure (transform_all t cs s) = figure s.
Proof.
  revert s. induction cs as [|c cs IH]; intros s; [done|].
  by rewrite transform_all_cons, IH.
Qed.

Lemma transform_all_lookup t cs s c :
  patches (transform_all t cs s) !! c =
    if decide (c ∈ cs) then Some (retransform t (patch s c)) else patches s !! c.
Proof.
  revert s. induction cs as [|c0 cs IH]; intros s.
  - cbn. case_decide as Hin; [by apply elem_of_nil in Hin|done].
  - rewrite transform_all_cons, IH.
    unfold patch, with_patch. cbn [patches].
    destruct (decide (c = c0)) as [->|Hne].
    + rewrite lookup_total_insert_eq, lookup_insert_eq.
      rewrite (decide_True (P := c0 ∈ c0 :: cs)) by left.
      case_decide; [|done]. done.
    + rewrite lookup_total_insert_ne, lookup_insert_ne by done.
      apply decide_ext. rewrite elem_of_cons. tauto.
Qed.

Lemma transform_all_patch t cs s c :
  patch (transform_all t cs s) c =
    if decide (c ∈ cs) then retransform t (patch s c) else patch s c.
Proof.
  unfold patch at 1. rewrite lookup_total_alt, transform_all_lookup.
  case_decide; [done|]. unfold patch. by rewrite lookup_total_alt.
Qed.

Lemma transform_all_idemp t cs s :
  transform_all t cs (transform_all t cs s) = transform_all t cs s.
Proof.
  assert (patches (transform_all t cs (transform_all t cs s))
          = patches (transform_all t cs s)) as E.
  { apply map_eq. intros c. rewrite !transform_all_lookup, transform_all_patch.
    by repeat case_decide. }
  pose proof (transform_all_self t cs (transform_all t cs s)) as E1.
  pose proof (transform_all_figure t cs (transform_all t cs s)) as E2.
  destruct (transform_all t cs (transform_all t cs s)), (transform_all t cs s).
  cbn in *. by subst.
Qed.

Lemma transform_all_vertices t cs s : vertices (transform_all t cs s) = vertices s.
Proof.
  unfold vertices. rewrite transform_all_self. apply list_fmap_ext.
  intros _ c _. rewrite transform_all_patch. by case_decide.
Qed.

Lemma transform_all_the_axes t cs s a : the_axes (transform_all t cs s) a = the_axes s a.
Proof. unfold the_axes. by rewrite transform_all_figure. Qed.

Lemma for_each_set_transform (T : AxesId → Transform) cs s a :
  axes (self s) = Some a →
  for_each cs (λ c, a' ← self_axes; set_transform c (T a')) s =
    (Return (), transform_all (T a) cs s).
Proof.
  revert s. induction cs as [|c cs IH]; intros s Ha; [done|].
  cbn [for_each]. run. unfold self_axes at 1. rewrite Ha. run.
  unfold set_transform. run. by rewrite IH.
Qed.

(** ** What each method computes *)

Lemma axesToDataScale_run s :
  axesToDataScale s =
    match axes (self s) with
    | Some a => (Return (viewWidth (the_axes s a), viewHeight (the_axes s a)), s)
    | None => (Raise AttributeError, s)
    end.
Proof.
  unfold axesToDataScale, self_axes. run.
  destruct (axes (self s)) as [a|]; [|done]. run.
  unfold viewWidth, viewHeight.
  by destruct (viewLim_bounds (the_axes s a)) as [[[x0 y0] w] h].
Qed.

Lemma scaling_run s :
  scaling s =
    match axes (self s) with
    | None => (Raise AttributeError, s)
    | Some a =>
        match intrinsic_height (vertices s) with
        | None => (Raise ValueError, s)
        | Some h =>
            (Return (horizontal_scale (viewWidth (the_axes s a))
                       (viewHeight (the_axes s a)) h, lit 1), s)
        end
    end.
Proof.
  unfold scaling. run. rewrite axesToDataScale_run.
  destruct (axes (self s)) as [a|]; [|done]. run. rewrite height_run.
  by destruct (intrinsic_height (vertices s)).
Qed.

Lemma with_self_moved_None s : with_self (moved None None (self s)) s = s.
Proof. by destruct s as [[] ? ?]. Qed.

Lemma update_run x y s :
  update x y s =
    let s1 := with_self (moved x y (self s)) s in
    match axes (self s) with
    | None => (Raise AttributeError, s1)
    | Some a =>
        match intrinsic_height (vertices s) with
        | None => (Raise ValueError, s1)
        | Some h =>
            match pos_x (self s1), pos_y (self s1) with
            | Some vx, Some vy =>
                (Return (),
                 transform_all
                   (placement (horizontal_scale (viewWidth (the_axes s a))
                                 (viewHeight (the_axes s a)) h) vx vy a)
                   (components (self s)) s1)
            | _, _ => (Raise TypeError, s1)
            end
        end
    end.
Proof.
  assert (∀ s', axes (self s') = axes (self s) → vertices s' = vertices s →
            figure s' = figure s → components (self s') = components (self s) →
    (' (xScaling, yScaling) ← scaling;
     sx ← gets (λ s, pos_x (self s));
     sy ← gets (λ s, pos_y (self s));
     translation ← lift (Affine2D_translate sx sy);
     let scaling := scale Affine2D xScaling yScaling in
     cs ← gets (λ s, components (self s));
     for_each cs (λ component,
       a ← self_axes;
       set_transform component
         (Composite (Composite (Affine2DBase scaling) (Affine2DBase translation))
                    (transData a)))) s' =
    match axes (self s) with
    | None => (Raise AttributeError, s')
    | Some a =>
        match intrinsic_height (vertices s) with
        | None => (Raise ValueError, s')
        | Some h =>
            match pos_x (self s'), pos_y (self s') with
            | Some vx, Some vy =>
                (Return (),
                 transform_all
                   (placement (horizontal_scale (viewWidth (the_axes s a))
                                 (viewHeight (the_axes s a)) h) vx vy a)
                   (components (self s)) s')
            | _, _ => (Raise TypeError, s')
            end
        end
    end) as Hrest.
  { intros s' Ha Hv Hf Hc. run. rewrite scaling_run, Ha, Hv.
    destruct (axes (self s)) as [a|] eqn:Ea; [|done].
    destruct (intrinsic_height (vertices s)) as [h|]; [|done].
    run. unfold the_axes. rewrite Hf.
    destruct (pos_x (self s')) as [vx|], (pos_y (self s')) as [vy|]; try done.
    run. rewrite Hc.
    by rewrite (for_each_set_transform _ _ _ a). }
  unfold update.
  destruct x as [vx|], y as [vy|];
    do 2 (rewrite Py_bind_unfold; unfold set_x, set_y, modify;
          rewrite ?Py_ret_unfold; cbv beta iota);
    rewrite Hrest by done; cbn zeta; rewrite ?with_self_moved_None; try done.
Qed.

(** ** Loops *)

Lemma for_each_inv {A} (I : @State F → Prop) (body : A → Py unit) l s :
  I s → (∀ v s', v ∈ l → I s' → I (body v s').2) → I (for_each l body s).2.
Proof.
  revert s. induction l as [|v l IH]; intros s Hs Hstep; [done|].
  cbn [for_each]. rewrite Py_bind_unfold.
  pose proof (Hstep v s ltac:(left) Hs) as Hv.
  destruct (body v s) as [[[]|e] s1]; [|done].
  apply IH; [done|]. intros w s2 Hw. apply Hstep. by right.
Qed.

(** ** [add_patch] and [applyTo] *)

Lemma add_patch_frame_refl s : add_patch_frame s s.
Proof. by repeat split. Qed.

Lemma add_patch_frame_trans s1 s2 s3 :
  add_patch_frame s1 s2 → add_patch_frame s2 s3 → add_patch_frame s1 s3.
Proof.
  intros (E1 & X1 & T1 & B1) (E2 & X2 & T2 & B2). repeat split.
  - congruence.
  - intros c. by rewrite X2.
  - intros c t Ht. by apply T2, T1.
  - intros a. by rewrite B2.
Qed.

Lemma patch_with_patch s p v c :
  patch (with_patch p v s) c = if decide (c = p) then v else patch s c.
Proof.
  unfold patch, with_patch. cbn. case_decide as E.
  - subst. by rewrite lookup_total_insert_eq.
  - by rewrite lookup_total_insert_ne.
Qed.

Lemma the_axes_with_axes s a v a' :
  the_axes (with_axes a v s) a' = if decide (a' = a) then v else the_axes s a'.
Proof.
  unfold the_axes, with_axes. cbn. case_decide as E.
  - subst. by rewrite lookup_total_insert_eq.
  - by rewrite lookup_total_insert_ne.
Qed.

Lemma add_patch_frames a p s : add_patch_frame s (add_patch a p s).2.
Proof.
  assert (add_patch_frame s
    (with_axes a (mkAxes (viewLim_bounds (the_axes s a)) (children (the_axes s a) ++ [p]))
       (with_patch p
          (mkPatch (get_xy (patch s p))
             (Some (default (transData a) (get_transform (patch s p))))
             (Some a) (Some a)) s))) as Hacc.
  { repeat split.
    - intros c. change (patch (with_axes ?a ?v ?s) c) with (patch s c).
      rewrite patch_with_patch. by case_decide; subst.
    - intros c t Ht. change (patch (with_axes ?a ?v ?s) c) with (patch s c).
      rewrite patch_with_patch. case_decide; subst; [|done]. cbn. by rewrite Ht.
    - intros a'. rewrite the_axes_with_axes. by case_decide; subst. }
  unfold add_patch. destruct (artist_axes (patch s p)) as [a'|]; [|done].
  case_decide; [done|apply add_patch_frame_refl].
Qed.

Lemma attach_loop_frames cs s :
  add_patch_frame s (for_each cs (λ c, a' ← self_axes; add_patch a' c) s).2.
Proof.
  apply (for_each_inv (add_patch_frame s)); [apply add_patch_frame_refl|].
  intros c s' _ Hs'. eapply add_patch_frame_trans; [done|].
  rewrite Py_bind_unfold. unfold self_axes.
  destruct (axes (self s')); [apply add_patch_frames|apply add_patch_frame_refl].
Qed.

Lemma applyTo_run a x y s :
  applyTo a x y s =
    match update None None (placed a x y s) with
    | (Return _, s1) =>
        for_each (components (self s1)) (λ c, a' ← self_axes; add_patch a' c) s1
    | (Raise e, s1) => (Raise e, s1)
    end.
Proof.
  unfold applyTo. rewrite Py_bind_unfold. unfold modify at 1. cbv beta iota.
  rewrite Py_bind_unfold. fold (placed a x y s).
  destruct (update None None (placed a x y s)) as [[[]|e] s1]; [|done].
  by rewrite Py_bind_unfold.
Qed.

Lemma update_placed a x y s :
  update None None (placed a x y s) =
    match intrinsic_height (vertices s) with
    | None => (Raise ValueError, placed a x y s)
    | Some h =>
        (Return (),
         transform_all
           (placement (horizontal_scale (viewWidth (the_axes s a))
                         (viewHeight (the_axes s a)) h) x y a)
           (components (self s)) (placed a x y s))
    end.
Proof. rewrite update_run. cbn zeta. by rewrite with_self_moved_None. Qed.

(** ** Defined heights *)

Lemma maximum_is_Some (l : list F) : l ≠ [] → is_Some (maximum l).
Proof. by destruct l. Qed.
Lemma minimum_is_Some (l : list F) : l ≠ [] → is_Some (minimum l).
Proof. by destruct l. Qed.

Lemma intrinsic_height_is_Some (vss : list (list (F * F))) :
  vss ≠ [] → Forall (λ vs, vs ≠ []) vss → is_Some (intrinsic_height vss).
Proof.
  intros Hne Hall. unfold intrinsic_height, highest, lowest.
  assert (is_Some (mapM vertical_max vss)) as [tops Et].
  { apply mapM_is_Some. eapply Forall_impl; [done|]. intros vs Hvs.
    apply maximum_is_Some. by destruct vs. }
  assert (is_Some (mapM vertical_min vss)) as [bots Eb].
  { apply mapM_is_Some. eapply Forall_impl; [done|]. intros vs Hvs.
    apply minimum_is_Some. by destruct vs. }
  rewrite Et, Eb. cbn.
  apply length_mapM in Et, Eb.
  destruct tops; [by destruct vss|]. destruct bots; [by destruct vss|]. done.
Qed.

Lemma drawable_height s :
  components (self s) ≠ [] → has_vertices s →
  is_Some (intrinsic_height (vertices s)).
Proof.
  intros Hne Hv. apply intrinsic_height_is_Some.
  - unfold vertices. by destruct (components (self s)).
  - unfold vertices. by apply Forall_fmap.
Qed.

(** ** Registration on the Axes *)

Lemma occurrences_nil c : occurrences c [] = 0.
Proof. reflexivity. Qed.

Lemma occurrences_cons c w l :
  occurrences c (w :: l) = (if decide (w = c) then 1 else 0) + occurrences c l.
Proof.
  unfold occurrences. cbn. destruct (Nat.eq_dec w c); by case_decide.
Qed.

Lemma occurrences_app c l k :
  occurrences c (l ++ k) = occurrences c l + occurrences c k.
Proof. apply count_occ_app. Qed.

Lemma occurrences_zero c l : occurrences c l = 0 ↔ c ∉ l.
Proof.
  unfold occurrences. rewrite <- count_occ_not_In. by rewrite list_elem_of_In.
Qed.

Lemma list_remove_occurrences c l :
  0 < occurrences c l →
  ∃ l', list_remove c l = Some l'
        ∧ ∀ c', occurrences c' l
                = (if decide (c = c') then 1 else 0) + occurrences c' l'.
Proof.
  induction l as [|w l IH]; intros Hpos.
  - unfold occurrences in Hpos. cbn in Hpos. lia.
  - cbn [list_remove]. destruct (decide (c = w)) as [->|Hne].
    + eexists. split; [done|]. intros c'. apply occurrences_cons.
    + rewrite occurrences_cons in Hpos. rewrite decide_False in Hpos by done.
      destruct (IH Hpos) as (l' & -> & Hl'). eexists. split; [done|].
      intros c'. rewrite !occurrences_cons, Hl'. lia.
Qed.

(** The loop of [remove], on any tail [cs] of the components: every patch of
    [cs] removes itself from [a], and [a] lists each patch of interest as
    often as [cs] does. *)
Lemma remove_loop cs s a (U : PatchId → Prop) :
  (∀ c, c ∈ cs → U c) →
  (∀ c, c ∈ cs → remove_method (patch s c) = Some a) →
  (∀ c, U c → occurrences c (children (the_axes s a)) = occurrences c cs) →
  ∃ s', for_each cs Artist_remove s = (Return (), s')
        ∧ self s' = self s
        ∧ ∀ c, U c → c ∉ children (the_axes s' a).
Proof.
  revert s. induction cs as [|c0 cs IH]; intros s HU Hrm Hocc.
  - exists s. repeat split. intros c Hc. apply occurrences_zero. by rewrite Hocc.
  - cbn [for_each]. rewrite Py_bind_unfold. unfold Artist_remove at 1.
    rewrite (Hrm c0) by left.
    destruct (list_remove_occurrences c0 (children (the_axes s a))) as (l & -> & Hl).
    { rewrite Hocc by (apply HU; left). rewrite occurrences_cons, decide_True by done. lia. }
    set (s1 := with_patch c0 _ _).
    destruct (IH s1) as (s' & Hrun & Hself & Hout).
    + intros c Hc. apply HU. by right.
    + intros c Hc. unfold s1. rewrite patch_with_patch.
      case_decide as E; cbn; [done|apply Hrm; by right].
    + intros c Hc. unfold s1.
      change (the_axes (with_patch ?p ?v ?s) a) with (the_axes s a).
      rewrite the_axes_with_axes, decide_True by done. cbn [children].
      pose proof (Hocc c Hc) as E. rewrite Hl, occurrences_cons in E.
      destruct (decide (c0 = c)); lia.
    + exists s'. by repeat split.
Qed.

Lemma attach_loop_Return cs s s' a :
  axes (self s) = Some a →
  for_each cs (λ c, a' ← self_axes; add_patch a' c) s = (Return (), s') →
  (∀ c, occurrences c (children (the_axes s' a))
        = occurrences c (children (the_axes s a)) + occurrences c cs)
  ∧ (∀ c, c ∈ cs → remove_method (patch s' c) = Some a)
  ∧ (∀ c, remove_method (patch s c) = Some a → remove_method (patch s' c) = Some a).
Proof.
  revert s. induction cs as [|c0 cs IH]; intros s Ha Hrun.
  - cbn in Hrun. injection Hrun as <-. repeat split.
    + intros c. rewrite occurrences_nil. lia.
    + intros c Hc. by apply elem_of_nil in Hc.
    + done.
  - cbn [for_each] in Hrun. rewrite !Py_bind_unfold in Hrun.
    unfold self_axes at 1 in Hrun. rewrite Ha in Hrun.
    unfold add_patch at 1 in Hrun. cbv zeta in Hrun.
    set (s1 := with_axes a _ _) in Hrun.
    assert (for_each cs (λ c, a' ← self_axes; add_patch a' c) s1 = (Return (), s'))
      as Hrun1.
    { destruct (artist_axes (patch s c0)) as [a'|]; [|done].
      by case_decide. }
    clear Hrun. apply IH in Hrun1 as (Hocc & Hnew & Hold); [|done].
    assert (remove_method (patch s1 c0) = Some a) as H0.
    { unfold s1. change (patch (with_axes ?a ?v ?s) c0) with (patch s c0).
      by rewrite patch_with_patch, decide_True. }
    repeat split.
    + intros c. rewrite Hocc. unfold s1.
      rewrite the_axes_with_axes, decide_True by done. cbn [children].
      change (the_axes (with_patch ?p ?v ?s) a) with (the_axes s a).
      rewrite occurrences_app, !occurrences_cons, occurrences_nil.
      destruct (decide (c0 = c)); lia.
    + intros c [->|Hc]%elem_of_cons; [by apply Hold|by apply Hnew].
    + intros c Hc. apply Hold. unfold s1.
      change (patch (with_axes ?a ?v ?s) c) with (patch s c).
      rewrite patch_with_patch. by case_decide; subst.
Qed.

(** ** [applyTo] registers, [update] keeps the registration *)

Lemma attach_loop_accepts cs s a :
  axes (self s) = Some a →
  (∀ c, c ∈ cs → artist_axes (patch s c) = None ∨ artist_axes (patch s c) = Some a) →
  (for_each cs (λ c, a' ← self_axes; add_patch a' c) s).1 = Return ().
Proof.
  revert s. induction cs as [|c0 cs IH]; intros s Ha Hown; [done|].
  cbn [for_each]. rewrite !Py_bind_unfold. unfold self_axes at 1. rewrite Ha.
  unfold add_patch at 1. cbv zeta. set (s1 := with_axes a _ _).
  assert ((for_each cs (λ c, a' ← self_axes; add_patch a' c) s1).1 = Return ())
    as Hrest.
  { apply IH; [done|]. intros c Hc. unfold s1.
    change (patch (with_axes ?a ?v ?s) c) with (patch s c).
    rewrite patch_with_patch. case_decide; [by right|]. apply Hown. by right. }
  destruct (Hown c0 ltac:(left)) as [-> | ->]; [|rewrite decide_True by done];
    by destruct (for_each cs _ s1) as [[[]|e] s2].
Qed.

Lemma applyTo_Return s a x y :
  components (self s) ≠ [] → has_vertices s →
  (∀ c, c ∈ components (self s) →
        artist_axes (patch s c) = None ∨ artist_axes (patch s c) = Some a) →
  (applyTo a x y s).1 = Return ().
Proof.
  intros Hne Hv Hown. destruct (drawable_height s Hne Hv) as [h Eh].
  rewrite applyTo_run, update_placed, Eh. set (s1 := transform_all _ _ _).
  assert (self s1 = self (placed a x y s)) as E1 by apply transform_all_self.
  rewrite E1. apply attach_loop_accepts with (a := a); [by rewrite E1|].
  intros c Hc. unfold s1. rewrite transform_all_patch.
  case_decide; by apply Hown.
Qed.

Lemma applyTo_registers s a x y s' :
  (∀ c, c ∈ components (self s) → c ∉ children (the_axes s a)) →
  applyTo a x y s = (Return (), s') →
  registered s' a.
Proof.
  intros Hfresh Hrun. rewrite applyTo_run, update_placed in Hrun.
  destruct (intrinsic_height (vertices s)) as [h|]; [|done].
  set (s1 := transform_all _ _ _) in Hrun.
  assert (self s1 = self (placed a x y s)) as E1 by apply transform_all_self.
  assert (the_axes s1 a = the_axes s a) as A1
    by apply (transform_all_the_axes _ _ (placed a x y s)).
  pose proof (attach_loop_frames (components (self s1)) s1) as (E & _).
  rewrite Hrun in E. cbn [snd] in E.
  apply attach_loop_Return with (a := a) in Hrun as (Hocc & Hnew & _);
    [|by rewrite E1].
  unfold registered. rewrite E, E1. cbn [self placed with_self components].
  rewrite E1 in Hocc, Hnew. cbn [self placed with_self components] in Hocc, Hnew.
  apply Forall_forall. intros c Hc. split; [by apply Hnew|].
  rewrite Hocc, A1. apply Hfresh, occurrences_zero in Hc. by rewrite Hc.
Qed.

Lemma registered_frame s s' a :
  components (self s') = components (self s) →
  (∀ c, remove_method (patch s' c) = remove_method (patch s c)) →
  the_axes s' a = the_axes s a →
  registered s a → registered s' a.
Proof.
  intros Hc Hrm Ha. unfold registered. rewrite Hc, Ha.
  intros Hreg. eapply Forall_impl; [done|]. intros c. by rewrite Hrm.
Qed.

Lemma update_registered s a x y :
  registered s a → registered (update x y s).2 a.
Proof.
  assert (registered s a → registered (with_self (moved x y (self s)) s) a) as H1.
  { by apply registered_frame. }
  intros Hreg. rewrite update_run. cbn zeta.
  destruct (axes (self s)) as [a'|]; [|by apply H1].
  destruct (intrinsic_height (vertices s)) as [h|]; [|by apply H1].
  destruct (pos_x _) as [vx|]; [|by apply H1].
  destruct (pos_y _) as [vy|]; [|by apply H1].
  cbn [snd]. eapply registered_frame; [| | |by apply H1].
  - by rewrite transform_all_self.
  - intros c. rewrite transform_all_patch. by case_decide.
  - by rewrite transform_all_the_axes.
Qed.

(** ** The life of an applied Drawing *)

Lemma applyTo_state a x y s h :
  intrinsic_height (vertices s) = Some h →
  let t := placement (horizontal_scale (viewWidth (the_axes s a))
                        (viewHeight (the_axes s a)) h) x y a in
  let s' := (applyTo a x y s).2 in
  self s' = self (placed a x y s)
  ∧ (∀ c, get_xy (patch s' c) = get_xy (patch s c))
  ∧ (∀ c, c ∈ components (self s) → get_transform (patch s' c) = Some t)
  ∧ (∀ a', viewLim_bounds (the_axes s' a') = viewLim_bounds (the_axes s a')).
Proof.
  intros Eh t s'. unfold s'. rewrite applyTo_run, update_placed, Eh.
  fold t. set (s1 := transform_all t _ _).
  destruct (attach_loop_frames (components (self s1)) s1) as (E & X & T & B).
  assert (self s1 = self (placed a x y s)) as E1 by apply transform_all_self.
  repeat split.
  - by rewrite E.
  - intros c. rewrite X. unfold s1. rewrite transform_all_patch.
    by case_decide.
  - intros c Hc. apply T. unfold s1. rewrite transform_all_patch.
    by rewrite decide_True.
  - intros a'. rewrite B. unfold s1. by rewrite transform_all_the_axes.
Qed.

Lemma applyTo_get_xy a x y s c :
  get_xy (patch (applyTo a x y s).2 c) = get_xy (patch s c).
Proof.
  destruct (intrinsic_height (vertices s)) as [h|] eqn:Eh.
  - by destruct (applyTo_state a x y s _ Eh) as (_ & X & _).
  - by rewrite applyTo_run, update_placed, Eh.
Qed.

Lemma intrinsic_height_Some_inv (vss : list (list (F * F))) h :
  intrinsic_height vss = Some h → vss ≠ [] ∧ Forall (λ vs, vs ≠ []) vss.
Proof.
  unfold intrinsic_height, highest. intros Eh.
  destruct (mapM vertical_max vss) as [tops|] eqn:Et; [|done].
  split.
  - intros ->. by injection Et as <-.
  - assert (is_Some (mapM vertical_max vss)) as Hs by done.
    apply mapM_is_Some in Hs. eapply Forall_impl; [done|].
    intros vs [t Ht] ->. done.
Qed.

Lemma vertices_defined s h :
  intrinsic_height (vertices s) = Some h →
  components (self s) ≠ [] ∧ has_vertices s.
Proof.
  intros [Hne Hall]%intrinsic_height_Some_inv. unfold vertices in *. split.
  - intros E. by rewrite E in Hne.
  - unfold has_vertices. apply Forall_forall. intros c Hc.
    eapply Forall_forall in Hall; [done|].
    by apply (list_elem_of_fmap_2 (λ c, get_xy (patch s c))).
Qed.

Lemma has_vertices_frame s s' :
  components (self s') = components (self s) →
  (∀ c, get_xy (patch s' c) = get_xy (patch s c)) →
  has_vertices s → has_vertices s'.
Proof.
  intros Hc Hxy. unfold has_vertices. rewrite Hc. intros Hv.
  eapply Forall_impl; [done|]. intros c. by rewrite Hxy.
Qed.

Lemma update_frame x y s :
  self (update x y s).2 = moved x y (self s)
  ∧ ∀ c, get_xy (patch (update x y s).2 c) = get_xy (patch s c).
Proof.
  rewrite update_run. cbn zeta.
  destruct (axes (self s)) as [a|]; [|done].
  destruct (intrinsic_height (vertices s)) as [h|]; [|done].
  destruct (pos_x _) as [vx|]; [|done].
  destruct (pos_y _) as [vy|]; [|done].
  cbn [snd]. split; [by rewrite transform_all_self|].
  intros c. rewrite transform_all_patch. by case_decide.
Qed.

(** An applied Drawing is attached, has components with vertices, and is
    registered on its Axes. *)
Lemma applied_inv a s :
  applied a s →
  (∃ x y, attached s a x y) ∧ components (self s) ≠ [] ∧ has_vertices s
  ∧ registered s a.
Proof.
  induction 1 as [s x y s' Hfresh Hrun
                 | s x y _ ((x0 & y0 & Hat) & Hne & Hv & Hreg)
                 | s a' bounds _ (Hat & Hne & Hv & Hreg)].
  - pose proof (applyTo_registers s a x y s' Hfresh Hrun) as Hreg.
    pose proof Hrun as Hrun'. rewrite applyTo_run, update_placed in Hrun'.
    destruct (intrinsic_height (vertices s)) as [h|] eqn:Eh; [|done]. clear Hrun'.
    destruct (vertices_defined s h Eh) as [Hne Hv].
    destruct (applyTo_state a x y s h Eh) as (E & X & _ & _).
    rewrite Hrun in E, X. cbn [snd] in E, X.
    split; [exists x, y; unfold attached; by rewrite E|].
    split; [by rewrite E|]. split; [|done].
    eapply has_vertices_frame; [|done|done]. by rewrite E.
  - destruct (update_frame x y s) as [E X].
    destruct Hat as (Ha & Hx & Hy).
    split.
    { exists (default x0 x), (default y0 y). unfold attached. rewrite E.
      cbn [moved axes pos_x pos_y]. rewrite Hx, Hy. by destruct x, y. }
    split; [by rewrite E|]. split; [|by apply update_registered].
    eapply has_vertices_frame; [|done|done]. by rewrite E.
  - split; [done|]. split; [done|]. split; [done|].
    unfold registered, set_viewLim in *. cbn [self with_axes].
    eapply Forall_impl; [done|]. intros c [Hrm Hocc]. split; [done|].
    rewrite the_axes_with_axes. by case_decide; subst.
Qed.

(** ** The claims *)

Lemma height_Return s :
  components (self s) ≠ [] → has_vertices s →
  ∃ t b, highest (vertices s) = Some t ∧ lowest (vertices s) = Some b
         ∧ intrinsic_height (vertices s) = Some (fsub t b)
         ∧ height s = (Return (fsub t b), s).
Proof.
  intros Hne Hv. destruct (drawable_height s Hne Hv) as [h Eh].
  rewrite height_run. unfold intrinsic_height in *.
  destruct (highest (vertices s)) as [t|]; [|done].
  destruct (lowest (vertices s)) as [b|]; [|done].
  by exists t, b.
Qed.

Lemma height_frame s s' :
  components (self s') = components (self s) →
  (∀ c, get_xy (patch s' c) = get_xy (patch s c)) →
  (height s').1 = (height s).1.
Proof.
  intros Hc Hxy. rewrite !height_run. cbn. do 2 f_equal.
  unfold vertices. rewrite Hc. apply list_fmap_ext. intros _ c _. apply Hxy.
Qed.

(** C3.  For a Drawing with at least one component, [height()] returns the
    maximum over the components of each component's greatest y, minus the
    minimum over the components of each component's least y, both taken from
    the untransformed vertices [get_xy]; it leaves the state as it found it;
    and any two states with the same components and the same vertices,
    whatever their Axes, position and transforms, give the same result. *)
Theorem height_is_intrinsic s :
  components (self s) ≠ [] → has_vertices s →
  ∃ t b,
    highest (vertices s) = Some t ∧ lowest (vertices s) = Some b
    ∧ height s = (Return (fsub t b), s)
    ∧ ∀ s', components (self s') = components (self s) →
            (∀ c, get_xy (patch s' c) = get_xy (patch s c)) →
            height s' = (Return (fsub t b), s').
Proof.
  intros Hne Hv. destruct (height_Return s Hne Hv) as (t & b & Ht & Hb & _ & Hh).
  exists t, b. repeat split; try done.
  intros s' Hc Hxy. pose proof (height_frame s s' Hc Hxy) as E.
  rewrite Hh in E. rewrite height_run in E |- *. cbn in E. by rewrite E.
Qed.

(** C2.  For an attached Drawing with at least one component, [scaling()]
    returns the horizontal scale viewWidth * ((h / viewHeight) / 0.2) ** (3/4),
    with (viewWidth, viewHeight) the current [viewLim.bounds[2:]] of the Axes
    and h the value of [height()], together with the vertical scale 1. *)
Theorem scaling_formula s a x y :
  attached s a x y → components (self s) ≠ [] → has_vertices s →
  ∃ h, height s = (Return h, s)
       ∧ scaling s =
           (Return (fmul (viewWidth (the_axes s a))
                      (fpow (fdiv (fdiv h (viewHeight (the_axes s a))) (lit (2 # 10)))
                            (fdiv (lit 3) (lit 4))),
                    lit 1), s).
Proof.
  intros (Ha & _ & _) Hne Hv.
  destruct (height_Return s Hne Hv) as (t & b & _ & _ & Eh & Hh).
  exists (fsub t b). split; [done|]. by rewrite scaling_run, Ha, Eh.
Qed.

(** C1.  After [applyTo(axes, x, y)] on a Drawing with at least one
    component, the Drawing is attached to the Axes at (x, y) and every
    component's transform is scale(sx, 1), then translate(x, y), then the
    Axes' [transData], where sx is the horizontal scale of section 4.1:
    viewWidth * ((h / viewHeight) / 0.2) ** (3/4), for the Axes' view
    extents and for h the intrinsic height of the Drawing, the maximum over
    the components of their greatest y minus the minimum over the components
    of their least y, which is what [height()] returns. *)
Theorem applyTo_places s a x y :
  components (self s) ≠ [] → has_vertices s →
  ∃ t b,
    highest (vertices s) = Some t ∧ lowest (vertices s) = Some b
    ∧ intrinsic_height (vertices s) = Some (fsub t b)
    ∧ height s = (Return (fsub t b), s)
    ∧ attached (applyTo a x y s).2 a x y
    ∧ ∀ c, c ∈ components (self s) →
        get_transform (patch (applyTo a x y s).2 c) =
          Some (Composite
                  (Composite
                     (Affine2DBase
                        (scale Affine2D
                           (fmul (viewWidth (the_axes s a))
                              (fpow (fdiv (fdiv (fsub t b)
                                             (viewHeight (the_axes s a)))
                                       (lit (2 # 10)))
                                    (fdiv (lit 3) (lit 4))))
                           (lit 1)))
                     (Affine2DBase (translate Affine2D x y)))
                  (transData a)).
Proof.
  intros Hne Hv.
  destruct (height_Return s Hne Hv) as (t & b & Ht & Hb & Eh & Hh).
  exists t, b. split; [done|]. split; [done|]. split; [done|]. split; [done|].
  destruct (applyTo_state a x y s _ Eh) as (E & _ & T & _).
  split; [|done]. unfold attached. by rewrite E.
Qed.

Lemma update_attached s a x0 y0 x y :
  attached s a x0 y0 → components (self s) ≠ [] → has_vertices s →
  ∃ h, height s = (Return h, s)
       ∧ update x y s =
           (Return (),
            transform_all
              (placement (horizontal_scale (viewWidth (the_axes s a))
                            (viewHeight (the_axes s a)) h)
                 (default x0 x) (default y0 y) a)
              (components (self s))
              (with_self (moved x y (self s)) s)).
Proof.
  intros (Ha & Hx & Hy) Hne Hv.
  destruct (height_Return s Hne Hv) as (t & b & _ & _ & Eh & Hh).
  exists (fsub t b). split; [done|].
  rewrite update_run. cbn zeta. rewrite Ha, Eh. cbn [self with_self moved pos_x pos_y].
  rewrite Hx, Hy. by destruct x, y.
Qed.

Lemma update_idempotent x y s : update x y (update x y s).2 = update x y s.
Proof.
  pose proof (update_run x y s) as Hu. cbn zeta in Hu.
  set (s1 := with_self (moved x y (self s)) s) in Hu.
  assert (with_self (moved x y (self s1)) s1 = s1) as Es1.
  { unfold s1. destruct s as [[cs ax px py] ps fs]. by destruct x, y. }
  assert (update x y s1 = update x y s) as E1.
  { rewrite !update_run. cbn zeta. by rewrite Es1. }
  destruct (axes (self s)) as [a|] eqn:Ea; [|rewrite Hu at 1; cbn [snd]; by rewrite E1].
  destruct (intrinsic_height (vertices s)) as [h|] eqn:Eh; [|rewrite Hu at 1; cbn [snd]; by rewrite E1].
  destruct (pos_x (self s1)) as [vx|] eqn:Ex; [|rewrite Hu at 1; cbn [snd]; by rewrite E1].
  destruct (pos_y (self s1)) as [vy|] eqn:Ey; [|rewrite Hu at 1; cbn [snd]; by rewrite E1].
  rewrite Hu. cbn [snd].
  set (t := placement _ vx vy a). set (s2 := transform_all t _ s1).
  assert (self s2 = self s1) as E2 by apply transform_all_self.
  assert (vertices s2 = vertices s) as Ev
    by apply (transform_all_vertices t (components (self s)) s1).
  assert (∀ a', the_axes s2 a' = the_axes s a') as Eax
    by (intros; apply (transform_all_the_axes t (components (self s)) s1)).
  assert (moved x y (self s1) = self s1) as Em.
  { unfold s1. destruct s as [[cs ax px py] ps fs]. by destruct x, y. }
  assert (with_self (self s1) s2 = s2) as Ew.
  { rewrite <- E2. by destruct s2. }
  rewrite update_run. cbn zeta. rewrite E2, Ev, Em, Ew, E2.
  change (axes (self s1)) with (axes (self s)). rewrite Ea, Eh, Ex, Ey, !Eax.
  change (components (self s1)) with (components (self s)). fold t.
  unfold s2. by rewrite transform_all_idemp.
Qed.

(** C6.  On an attached Drawing with at least one component, [update(x, y)]
    returns, and a second [update(x, y)] with the same arguments and the
    same view bounds returns in the very state the first one left: the
    Drawing and every patch, transforms included, are as after one call. *)
Theorem update_twice s a x0 y0 x y :
  attached s a x0 y0 → components (self s) ≠ [] → has_vertices s →
  ∃ s1, update x y s = (Return (), s1) ∧ update x y s1 = (Return (), s1).
Proof.
  intros Hat Hne Hv.
  destruct (update_attached s a x0 y0 x y Hat Hne Hv) as (h & _ & Hu).
  eexists. split; [done|].
  pose proof (update_idempotent x y s) as E. by rewrite Hu in E.
Qed.

(** C7.  On an attached Drawing, [update()] without arguments returns with
    the stored attributes, position (x, y) included, as they were; the
    horizontal scale is computed anew from the Axes' current view extents,
    and every component gets the transform composed from that scale, the
    stored position and the Axes' [transData]. *)
Theorem update_keeps_position s a x0 y0 :
  attached s a x0 y0 → components (self s) ≠ [] → has_vertices s →
  ∃ s' h,
    update None None s = (Return (), s')
    ∧ self s' = self s
    ∧ attached s' a x0 y0
    ∧ height s = (Return h, s)
    ∧ ∀ c, c ∈ components (self s) →
        get_transform (patch s' c) =
          Some (placement (horizontal_scale (viewWidth (the_axes s a))
                             (viewHeight (the_axes s a)) h) x0 y0 a).
Proof.
  intros Hat Hne Hv.
  destruct (update_attached s a x0 y0 None None Hat Hne Hv) as (h & Hh & Hu).
  rewrite with_self_moved_None in Hu.
  change (default x0 None) with x0 in Hu. change (default y0 None) with y0 in Hu.
  eexists _, h. split; [done|].
  assert (self (transform_all (placement (horizontal_scale (viewWidth (the_axes s a))
            (viewHeight (the_axes s a)) h) x0 y0 a) (components (self s)) s) = self s)
    as E by apply transform_all_self.
  split; [done|]. split; [unfold attached; by rewrite E|]. split; [done|].
  intros c Hc. by rewrite transform_all_patch, decide_True.
Qed.

(** C8.  On an attached Drawing, [update(x=v)] returns with the stored x
    overwritten by v and the stored y, the components and the Axes as they
    were, and every component gets the transform composed from the scale,
    the translation to (v, y) and the Axes' [transData]. *)
Theorem update_x_only s a x0 y0 v :
  attached s a x0 y0 → components (self s) ≠ [] → has_vertices s →
  ∃ s' h,
    update (Some v) None s = (Return (), s')
    ∧ self s' = mkDrawing (components (self s)) (axes (self s)) (Some v) (pos_y (self s))
    ∧ attached s' a v y0
    ∧ height s = (Return h, s)
    ∧ ∀ c, c ∈ components (self s) →
        get_transform (patch s' c) =
          Some (placement (horizontal_scale (viewWidth (the_axes s a))
                             (viewHeight (the_axes s a)) h) v y0 a).
Proof.
  intros Hat Hne Hv.
  destruct (update_attached s a x0 y0 (Some v) None Hat Hne Hv) as (h & Hh & Hu).
  change (default x0 (Some v)) with v in Hu.
  change (default y0 None) with y0 in Hu. destruct Hat as (Ha & Hx & Hy).
  eexists _, h. split; [done|]. unfold attached.
  rewrite transform_all_self. cbn [self with_self moved axes pos_x pos_y components].
  split; [done|]. split; [done|]. split; [done|].
  intros c Hc. by rewrite transform_all_patch, decide_True.
Qed.

(** C10.  On a Drawing that was never attached, [update(x=v)] and
    [update(y=v)] raise the AttributeError of the missing Axes, and the
    state they leave has the given coordinate overwritten with v: the
    failure does not undo the assignment. *)
Theorem update_not_atomic s v :
  axes (self s) = None →
  update (Some v) None s =
    (Raise AttributeError,
     with_self (mkDrawing (components (self s)) None (Some v) (pos_y (self s))) s)
  ∧ update None (Some v) s =
    (Raise AttributeError,
     with_self (mkDrawing (components (self s)) None (pos_x (self s)) (Some v)) s).
Proof.
  intros Ha. rewrite !update_run. cbn zeta. rewrite Ha. unfold moved. by rewrite Ha.
Qed.

(** C5, as the code has it.  [update] on a Drawing that was never attached
    raises AttributeError, [height] on a Drawing without components raises
    ValueError, and so does [update] on such a Drawing once it has an Axes
    (AttributeError before that); the exception is the one of the failing
    primitive, passed on unchanged. *)
Theorem misuse_raises s s' x y :
  axes (self s) = None → components (self s') = [] →
  (update x y s).1 = Raise AttributeError
  ∧ (height s').1 = Raise ValueError
  ∧ (update x y s').1
    = Raise (if axes (self s') is Some _ then ValueError else AttributeError).
Proof.
  intros Ha Hc. repeat split.
  - rewrite update_run. cbn zeta. by rewrite Ha.
  - rewrite height_run. unfold vertices. by rewrite Hc.
  - rewrite update_run. cbn zeta. destruct (axes (self s')); [|done].
    unfold vertices. by rewrite Hc.
Qed.

Lemma remove_run s : remove s = for_each (components (self s)) Artist_remove s.
Proof. reflexivity. Qed.

Lemma remove_registered s a :
  registered s a →
  ∃ s', remove s = (Return (), s')
        ∧ ∀ c, c ∈ components (self s) → c ∉ children (the_axes s' a).
Proof.
  intros Hreg. unfold registered in Hreg. rewrite Forall_forall in Hreg.
  destruct (remove_loop (components (self s)) s a (λ c, c ∈ components (self s)))
    as (s' & Hrun & _ & Hout).
  - done.
  - intros c Hc. by apply Hreg.
  - intros c Hc. by apply Hreg.
  - exists s'. by rewrite remove_run.
Qed.


End Properties.

(** * The worked example, in real arithmetic *)

Section Lens.
Local Open Scope R_scope.

(** Evaluates [Rmax] and [Rmin] on numerals. *)
Ltac max_min :=
  repeat match goal with
  | |- context [Rmax ?u ?v] =>
      first [rewrite (Rmax_left u v) by lra | rewrite (Rmax_right u v) by lra]
  | |- context [Rmin ?u ?v] =>
      first [rewrite (Rmin_left u v) by lra | rewrite (Rmin_right u v) by lra]
  end.

(** 2.5 ** 0.75 lies between 1.988 and 1.989: its fourth power is 2.5 ** 3. *)
Lemma Rpower_example : 1.988 < Rpower (5 / 2) (3 / 4) < 1.989.
Proof.
  set (t := Rpower (5 / 2) (3 / 4)).
  assert (0 < t) as Ht by apply exp_pos.
  assert (t ^ 4 = 125 / 8) as H4.
  { rewrite <- Rpower_pow by done. unfold t. rewrite Rpower_mult.
    replace (3 / 4 * INR 4) with (INR 3) by (cbn; lra).
    rewrite Rpower_pow by lra. lra. }
  assert (0 < t * t) as Hu by nra.
  assert (t * t * (t * t) = 125 / 8) as Hq by (rewrite <- H4; ring).
  split.
  - apply Rnot_le_lt. intros Hle.
    assert (t * t <= 1.988 * 1.988) as H2 by nra.
    assert (t * t * (t * t) <= 1.988 * 1.988 * (1.988 * 1.988)) as H3 by nra.
    lra.
  - apply Rnot_le_lt. intros Hle.
    assert (1.989 * 1.989 <= t * t) as H2 by nra.
    assert (1.989 * 1.989 * (1.989 * 1.989) <= t * t * (t * t)) as H3 by nra.
    lra.
Qed.

Lemma lens_scale_bounds h :
  h = 5 → 19.88 < horizontal_scale 10 10 h < 19.89.
Proof.
  intros ->. unfold horizontal_scale, heightFactor. cbn [fmul fpow fdiv lit R_FloatOps].
  replace (5 / 10 / Q2R (2 # 10)) with (5 / 2) by (unfold Q2R; cbn; lra).
  replace (Q2R 3 / Q2R 4) with (3 / 4) by (unfold Q2R; cbn; lra).
  pose proof Rpower_example. lra.
Qed.

Lemma lens_highest : highest (vertices lens) = Some 0.
Proof.
  transitivity (Some (Rmax (Rmax (Rmax 0 (-5)) (-5)) (Rmax (Rmax 0 0) (-5))));
    [reflexivity|].
  f_equal. max_min. reflexivity.
Qed.

Lemma lens_lowest : lowest (vertices lens) = Some (-5).
Proof.
  transitivity (Some (Rmin (Rmin (Rmin 0 (-5)) (-5)) (Rmin (Rmin 0 0) (-5))));
    [reflexivity|].
  f_equal. max_min. reflexivity.
Qed.

(** In the reals, [maximum] is the greatest element and [minimum] the least. *)
Lemma foldl_Rmax_greatest (l : list R) (v : R) :
  (foldl Rmax v l = v ∨ foldl Rmax v l ∈ l)
  ∧ v <= foldl Rmax v l ∧ Forall (λ w, w <= foldl Rmax v l) l.
Proof.
  revert v. induction l as [|w l IH]; intros v; cbn [foldl].
  - split; [by left|]. split; [lra|constructor].
  - destruct (IH (Rmax v w)) as (Hin & Hle & Hall).
    pose proof (Rmax_l v w). pose proof (Rmax_r v w).
    split; [|split; [lra|constructor; [lra|done]]].
    destruct Hin as [E|Hin]; [|right; by right].
    rewrite E. unfold Rmax. destruct (Rle_dec v w); [right; left|by left].
Qed.

Lemma foldl_Rmin_least (l : list R) (v : R) :
  (foldl Rmin v l = v ∨ foldl Rmin v l ∈ l)
  ∧ foldl Rmin v l <= v ∧ Forall (λ w, foldl Rmin v l <= w) l.
Proof.
  revert v. induction l as [|w l IH]; intros v; cbn [foldl].
  - split; [by left|]. split; [lra|constructor].
  - destruct (IH (Rmin v w)) as (Hin & Hle & Hall).
    pose proof (Rmin_l v w). pose proof (Rmin_r v w).
    split; [|split; [lra|constructor; [lra|done]]].
    destruct Hin as [E|Hin]; [|right; by right].
    rewrite E. unfold Rmin. destruct (Rle_dec v w); [by left|right; left].
Qed.

Lemma maximum_greatest (l : list R) (m : R) :
  maximum l = Some m → m ∈ l ∧ Forall (λ w, w <= m) l.
Proof.
  destruct l as [|v l]; [done|]. intros [= <-].
  destruct (foldl_Rmax_greatest l v) as (Hin & Hle & Hall).
  split; [|by constructor].
  destruct Hin as [->|Hin]; [left|by right].
Qed.

Lemma minimum_least (l : list R) (m : R) :
  minimum l = Some m → m ∈ l ∧ Forall (λ w, m <= w) l.
Proof.
  destruct l as [|v l]; [done|]. intros [= <-].
  destruct (foldl_Rmin_least l v) as (Hin & Hle & Hall).
  split; [|by constructor].
  destruct Hin as [->|Hin]; [left|by right].
Qed.

(** C4, as the code has it.  For components spanning the vertical
    coordinates from -5 to 0 on an Axes whose view is 10 wide and 10 high,
    [height()] is 5, the height factor is 0.5 and the horizontal scale
    10 * 2.5 ** 0.75 lies between 19.88 and 19.89; [applyTo(axes, 3, 4)]
    gives every component scale(sx, 1), then translate(3, 4), then the
    Axes' [transData]. *)
Theorem lens_example (s : @State R) (a : AxesId) :
  highest (vertices s) = Some 0 → lowest (vertices s) = Some (-5) →
  viewWidth (the_axes s a) = 10 → viewHeight (the_axes s a) = 10 →
  ∃ h sx,
    height s = (Return h, s) ∧ h = 5
    ∧ heightFactor h (viewHeight (the_axes s a)) = 0.5
    ∧ (scaling (placed a 3 4 s)).1 = Return (sx, lit 1)
    ∧ 19.88 < sx < 19.89
    ∧ attached (applyTo a 3 4 s).2 a 3 4
    ∧ ∀ c, c ∈ components (self s) →
        get_transform (patch (applyTo a 3 4 s).2 c) =
          Some (Composite
                  (Composite (Affine2DBase (scale Affine2D sx (lit 1)))
                             (Affine2DBase (translate Affine2D 3 4)))
                  (transData a)).
Proof.
  intros Hhi Hlo Hw Hh.
  assert (intrinsic_height (vertices s) = Some (0 - -5)) as Eh.
  { unfold intrinsic_height. by rewrite Hhi, Hlo. }
  exists (0 - -5), (horizontal_scale 10 10 (0 - -5)).
  split; [by rewrite height_run, Eh|]. split; [lra|].
  split; [rewrite Hh; unfold heightFactor; cbn; lra|].
  split.
  { rewrite scaling_run. cbn [axes self placed with_self].
    change (vertices (placed a 3 4 s)) with (vertices s).
    change (the_axes (placed a 3 4 s) a) with (the_axes s a).
    by rewrite Eh, Hw, Hh. }
  split; [apply lens_scale_bounds; lra|].
  destruct (applyTo_state a 3 4 s _ Eh) as (E & _ & T & _).
  rewrite Hw, Hh in T. split; [|done]. unfold attached. by rewrite E.
Qed.

Lemma lens_example_witness :
  highest (vertices lens) = Some 0 ∧ lowest (vertices lens) = Some (-5)
  ∧ viewWidth (the_axes lens 0%nat) = 10 ∧ viewHeight (the_axes lens 0%nat) = 10
  ∧ ∃ sx, 19.88 < sx < 19.89
          ∧ get_transform (patch lens_applied 1%nat) = Some (placement sx 3 4 0%nat).
Proof.
  split; [apply lens_highest|]. split; [apply lens_lowest|].
  split; [reflexivity|]. split; [reflexivity|].
  destruct (lens_example lens 0%nat lens_highest lens_lowest eq_refl eq_refl)
    as (h & sx & _ & _ & _ & _ & Hsx & _ & T).
  exists sx. split; [done|]. apply T. right. left.
Defined.

(** C4 as stated fails on the lens: no horizontal scale within 1 of 17.46
    is the one [applyTo(axes, 3, 4)] gives the first arrow. *)
Lemma lens_scale_is_not_17_46 :
  ¬ ∃ sx, Rabs (sx - 17.46) <= 1
          ∧ get_transform (patch lens_applied 0%nat) = Some (placement sx 3 4 0%nat).
Proof.
  intros (sx & Hnear & T).
  assert (intrinsic_height (vertices lens) = Some (0 - -5)) as Eh.
  { unfold intrinsic_height. by rewrite lens_highest, lens_lowest. }
  destruct (applyTo_state 0%nat 3 4 lens _ Eh) as (_ & _ & T' & _).
  specialize (T' 0%nat ltac:(left)). fold lens_applied in T'.
  rewrite T' in T. injection T as E.
  change (viewWidth (the_axes lens 0%nat)) with 10 in E.
  change (viewHeight (the_axes lens 0%nat)) with 10 in E.
  assert (sx = horizontal_scale 10 10 (0 - -5)) as -> by (symmetry; exact E).
  pose proof (lens_scale_bounds (0 - -5) ltac:(lra)) as Hb.
  unfold Rabs in Hnear. destruct (Rcase_abs _) in Hnear; lra.
Qed.

(** C5 as stated fails twice: [height()] returns on the lens before it is
    applied to any Axes, and [remove()] returns on a Drawing without
    components. *)
Lemma misuse_that_returns :
  axes (self lens) = None
  ∧ (∃ h, height lens = (Return h, lens))
  ∧ components (self hollow) = []
  ∧ remove hollow = (Return (), hollow).
Proof.
  split; [reflexivity|]. split; [|split; reflexivity].
  eexists. rewrite height_run. reflexivity.
Qed.

(** ** The general results at the lens *)

Lemma applyTo_places_witness :
  components (self lens) ≠ [] ∧ has_vertices lens
  ∧ ∃ t b, highest (vertices lens) = Some t ∧ lowest (vertices lens) = Some b
           ∧ intrinsic_height (vertices lens) = Some (t - b)
           ∧ height lens = (Return (t - b), lens)
           ∧ attached lens_applied 0%nat 3 4
           ∧ ∀ c, c ∈ components (self lens) →
               get_transform (patch lens_applied c)
               = Some (placement (horizontal_scale 10 10 (t - b)) 3 4 0%nat).
Proof.
  assert (components (self lens) ≠ []) as Hne by done.
  assert (has_vertices lens) as Hv by (repeat constructor; done).
  split; [done|]. split; [done|].
  exact (applyTo_places lens 0%nat 3 4 Hne Hv).
Defined.

Lemma scaling_formula_witness :
  attached lens_applied 0%nat 3 4 ∧ components (self lens_applied) ≠ []
  ∧ has_vertices lens_applied
  ∧ ∃ h, height lens_applied = (Return h, lens_applied)
         ∧ scaling lens_applied
           = (Return (10 * Rpower (h / 10 / Q2R (2 # 10)) (Q2R 3 / Q2R 4), Q2R 1),
              lens_applied).
Proof.
  assert (attached lens_applied 0%nat 3 4) as Hat by (repeat split).
  assert (components (self lens_applied) ≠ []) as Hne by done.
  assert (has_vertices lens_applied) as Hv by (repeat constructor; done).
  split; [done|]. split; [done|]. split; [done|].
  exact (scaling_formula lens_applied 0%nat 3 4 Hat Hne Hv).
Defined.

Lemma height_is_intrinsic_witness :
  components (self lens) ≠ [] ∧ has_vertices lens
  ∧ ∃ t b, highest (vertices lens) = Some t ∧ lowest (vertices lens) = Some b
           ∧ height lens = (Return (t - b), lens)
           ∧ height lens_applied = (Return (t - b), lens_applied).
Proof.
  assert (components (self lens) ≠ []) as Hne by done.
  assert (has_vertices lens) as Hv by (repeat constructor; done).
  split; [done|]. split; [done|].
  destruct (height_is_intrinsic lens Hne Hv) as (t & b & Ht & Hb & Hh & Hany).
  exists t, b. split; [done|]. split; [done|]. split; [done|].
  apply Hany; [reflexivity|]. intros c. apply applyTo_get_xy.
Defined.

Lemma misuse_raises_witness :
  axes (self lens) = None ∧ components (self hollow) = []
  ∧ (update (Some 5) None lens).1 = Raise AttributeError
  ∧ (height hollow).1 = Raise ValueError
  ∧ (update (Some 5) None hollow).1 = Raise ValueError.
Proof.
  split; [reflexivity|]. split; [reflexivity|].
  exact (misuse_raises lens hollow (Some 5) None eq_refl eq_refl).
Defined.

Lemma update_twice_witness :
  attached lens_applied 0%nat 3 4 ∧ components (self lens_applied) ≠ []
  ∧ has_vertices lens_applied
  ∧ ∃ s1, update (Some 5) None lens_applied = (Return (), s1)
          ∧ update (Some 5) None s1 = (Return (), s1).
Proof.
  assert (attached lens_applied 0%nat 3 4) as Hat by (repeat split).
  assert (components (self lens_applied) ≠ []) as Hne by done.
  assert (has_vertices lens_applied) as Hv by (repeat constructor; done).
  split; [done|]. split; [done|]. split; [done|].
  exact (update_twice lens_applied 0%nat 3 4 (Some 5) None Hat Hne Hv).
Defined.

Lemma update_keeps_position_witness :
  attached lens_zoomed 0%nat 3 4 ∧ components (self lens_zoomed) ≠ []
  ∧ has_vertices lens_zoomed
  ∧ ∃ s' h, update None None lens_zoomed = (Return (), s')
            ∧ attached s' 0%nat 3 4
            ∧ height lens_zoomed = (Return h, lens_zoomed)
            ∧ get_transform (patch s' 0%nat)
              = Some (placement (horizontal_scale 20 20 h) 3 4 0%nat).
Proof.
  assert (attached lens_zoomed 0%nat 3 4) as Hat by (repeat split).
  assert (components (self lens_zoomed) ≠ []) as Hne by done.
  assert (has_vertices lens_zoomed) as Hv by (repeat constructor; done).
  split; [done|]. split; [done|]. split; [done|].
  destruct (update_keeps_position lens_zoomed 0%nat 3 4 Hat Hne Hv)
    as (s' & h & Hu & _ & Hs & Hh & T).
  exists s', h. split; [done|]. split; [done|]. split; [done|].
  apply (T 0%nat). left.
Defined.

Lemma update_x_only_witness :
  attached lens_applied 0%nat 3 4 ∧ components (self lens_applied) ≠ []
  ∧ has_vertices lens_applied
  ∧ ∃ s', update (Some 5) None lens_applied = (Return (), s')
          ∧ attached s' 0%nat 5 4.
Proof.
  assert (attached lens_applied 0%nat 3 4) as Hat by (repeat split).
  assert (components (self lens_applied) ≠ []) as Hne by done.
  assert (has_vertices lens_applied) as Hv by (repeat constructor; done).
  split; [done|]. split; [done|]. split; [done|].
  destruct (update_x_only lens_applied 0%nat 3 4 5 Hat Hne Hv)
    as (s' & h & Hu & _ & Hs & _).
  by exists s'.
Defined.


Lemma update_not_atomic_witness :
  axes (self lens) = None ∧ pos_x (self lens) = None
  ∧ (update (Some 5) None lens).1 = Raise AttributeError
  ∧ pos_x (self (update (Some 5) None lens).2) = Some 5.
Proof.
  split; [reflexivity|]. split; [reflexivity|].
  destruct (update_not_atomic lens 5 eq_refl) as [-> _]. by split.
Defined.

End Lens.

(** * Further properties of the methods *)

Section Further.
Context {F : Type} `{!FloatOps F}.
Implicit Types (s : @State F) (d : @Drawing F) (c p : PatchId) (a : AxesId).

(** ** When [height], [scaling] and [update] return *)

Lemma intrinsic_height_defined s :
  is_Some (intrinsic_height (vertices s))
  ↔ components (self s) ≠ [] ∧ has_vertices s.
Proof.
  split.
  - intros [h Eh]. by apply (vertices_defined s h).
  - intros [Hne Hv]. by apply drawable_height.
Qed.

(** X1.  [height()] returns exactly when the Drawing has a component and every
    component has a vertex; otherwise it raises ValueError; in both cases it
    leaves the state alone. *)
Theorem height_returns_iff s :
  (height s).2 = s
  ∧ ((∃ h, (height s).1 = Return h)
     ↔ components (self s) ≠ [] ∧ has_vertices s)
  ∧ ((height s).1 = Raise ValueError
     ↔ components (self s) = [] ∨ ¬ has_vertices s).
Proof.
  rewrite height_run. cbn [fst snd]. split; [done|].
  pose proof (intrinsic_height_defined s) as Hd.
  destruct (intrinsic_height (vertices s)) as [h|]; cbn [from_option].
  - destruct Hd as [[Hne Hv] _]; [done|]. split.
    + split; [done|]. intros _. by exists h.
    + split; [done|]. intros [E|Hn]; [by rewrite E in Hne|done].
  - split.
    + split; [by intros [h ?]|]. intros H. apply Hd in H. by destruct H.
    + split; [|done]. intros _.
      destruct (decide (components (self s) = [])) as [|Hne]; [by left|right].
      intros Hv. destruct Hd as [_ Hd]. by destruct Hd.
Qed.

(** X2.  [scaling()] leaves the state alone; it raises AttributeError exactly on
    a Drawing without Axes, whatever its components, and returns exactly
    when the Drawing has an Axes, a component, and vertices in every
    component; what it returns then has vertical scale 1. *)
Theorem scaling_returns_iff s :
  (scaling s).2 = s
  ∧ ((scaling s).1 = Raise AttributeError ↔ axes (self s) = None)
  ∧ ((∃ sx, (scaling s).1 = Return (sx, lit 1))
     ↔ is_Some (axes (self s)) ∧ components (self s) ≠ [] ∧ has_vertices s)
  ∧ (∀ sx sy, (scaling s).1 = Return (sx, sy) → sy = lit 1).
Proof.
  rewrite scaling_run. pose proof (intrinsic_height_defined s) as Hd.
  destruct (axes (self s)) as [a|].
  - destruct (intrinsic_height (vertices s)) as [h|]; cbn [fst snd].
    + destruct Hd as [Hd _]. split; [done|]. split; [done|]. split.
      * split; [intros _; split; [done|by apply Hd]|]. intros _. by eexists.
      * by intros sx sy [= _ <-].
    + split; [done|]. split; [done|]. split; [|done].
      split; [by intros [sx ?]|]. intros (_ & Hne & Hv).
      destruct Hd as [_ Hd]. by destruct Hd.
  - cbn [fst snd]. split; [done|]. split; [done|]. split; [|done].
    split; [by intros [sx ?]|]. by intros ([a ?] & _).
Qed.

(** X3.  [update(x, y)] returns exactly when the Drawing has an Axes, a
    component, vertices in every component, and a position once the given
    coordinates are stored. *)
Theorem update_returns_iff x y s :
  (update x y s).1 = Return ()
  ↔ is_Some (axes (self s)) ∧ components (self s) ≠ [] ∧ has_vertices s
    ∧ is_Some (or_else x (pos_x (self s)))
    ∧ is_Some (or_else y (pos_y (self s))).
Proof.
  rewrite update_run. cbn zeta. pose proof (intrinsic_height_defined s) as Hd.
  cbn [self with_self moved pos_x pos_y]. fold (or_else x (pos_x (self s))).
  fold (or_else y (pos_y (self s))).
  destruct (axes (self s)) as [a|]; [|split; [done|by intros ([a ?] & _)]].
  destruct (intrinsic_height (vertices s)) as [h|].
  - destruct Hd as [[Hne Hv] _]; [done|].
    destruct (or_else x _) as [vx|]; [|split; [done|by intros (_ & _ & _ & [? ?] & _)]].
    destruct (or_else y _) as [vy|]; [|split; [done|by intros (_ & _ & _ & _ & [? ?])]].
    done.
  - split; [done|]. intros (_ & Hne & Hv & _). destruct Hd as [_ Hd]. by destruct Hd.
Qed.

(** ** What [update] changes, and how two calls compose *)

Lemma transform_all_same_but_transform t cs s c :
  same_but_transform (patch (transform_all t cs s) c) (patch s c).
Proof. rewrite transform_all_patch. by case_decide. Qed.

(** X4.  [update(x, y)], returning or raising, keeps the components, the Axes
    reference, every Axes with its view and children, and in every patch the
    vertices, the Axes it belongs to and its remove method; a patch that is
    no component keeps its transform as well. *)
Theorem update_changes_only_placement x y s :
  let s' := (update x y s).2 in
  self s' = moved x y (self s)
  ∧ figure s' = figure s
  ∧ (∀ c, same_but_transform (patch s' c) (patch s c))
  ∧ (∀ c, c ∉ components (self s) → patch s' c = patch s c).
Proof.
  cbn zeta. rewrite update_run. cbn zeta.
  destruct (axes (self s)) as [a|]; [|by repeat split].
  destruct (intrinsic_height (vertices s)) as [h|]; [|by repeat split].
  destruct (pos_x _) as [vx|]; [|by repeat split].
  destruct (pos_y _) as [vy|]; [|by repeat split].
  cbn [snd]. split; [by rewrite transform_all_self|].
  split; [by rewrite transform_all_figure|]. split.
  - intros c. apply (transform_all_same_but_transform _ _ (with_self _ s)).
  - intros c Hc. rewrite transform_all_patch. by rewrite decide_False.
Qed.

Lemma transform_all_overwrite t1 t2 cs s :
  transform_all t2 cs (transform_all t1 cs s) = transform_all t2 cs s.
Proof.
  assert (patches (transform_all t2 cs (transform_all t1 cs s))
          = patches (transform_all t2 cs s)) as E.
  { apply map_eq. intros c. rewrite !transform_all_lookup, transform_all_patch.
    by repeat case_decide. }
  assert (self (transform_all t2 cs (transform_all t1 cs s))
          = self (transform_all t2 cs s)) as E1
    by (by rewrite !transform_all_self).
  assert (figure (transform_all t2 cs (transform_all t1 cs s))
          = figure (transform_all t2 cs s)) as E2
    by (by rewrite !transform_all_figure).
  destruct (transform_all t2 cs (transform_all t1 cs s)), (transform_all t2 cs s).
  cbn in *. by subst.
Qed.

Lemma transform_all_with_self t cs d s :
  transform_all t cs (with_self d s) = with_self d (transform_all t cs s).
Proof.
  revert s. induction cs as [|c cs IH]; intros s; [done|].
  rewrite !transform_all_cons. by rewrite <- IH.
Qed.

Lemma moved_moved x1 y1 x2 y2 d :
  moved x2 y2 (moved x1 y1 d) = moved (or_else x2 x1) (or_else y2 y1) d.
Proof. by destruct d, x1, y1, x2, y2. Qed.

Lemma with_self_with_self d1 d2 s : with_self d2 (with_self d1 s) = with_self d2 s.
Proof. reflexivity. Qed.

(** X5.  [update(x1, y1)] followed by [update(x2, y2)] ends, outcome and state,
    as the single call that passes for each coordinate the later argument
    if it was given and the earlier one otherwise.  In particular a call
    repeated with the same arguments changes nothing more, also when it
    raises. *)
Theorem update_then_update x1 y1 x2 y2 s :
  update x2 y2 (update x1 y1 s).2 = update (or_else x2 x1) (or_else y2 y1) s.
Proof.
  rewrite (update_run (or_else x2 x1)). cbn zeta. rewrite <- moved_moved.
  set (s1 := with_self (moved x1 y1 (self s)) s).
  pose proof (update_run x1 y1 s) as Hu. cbn zeta in Hu. fold s1 in Hu.
  destruct (axes (self s)) as [a|] eqn:Ea;
    [|rewrite Hu; cbn [snd]; rewrite update_run; cbn zeta;
      change (axes (self s1)) with (axes (self s)); by rewrite Ea].
  destruct (intrinsic_height (vertices s)) as [h|] eqn:Eh;
    [|rewrite Hu; cbn [snd]; rewrite update_run; cbn zeta;
      change (axes (self s1)) with (axes (self s));
      change (vertices s1) with (vertices s); by rewrite Ea, Eh].
  assert (update x2 y2 s1 =
    match pos_x (moved x2 y2 (moved x1 y1 (self s))),
          pos_y (moved x2 y2 (moved x1 y1 (self s))) with
    | Some vx, Some vy =>
        (Return (),
         transform_all
           (placement (horizontal_scale (viewWidth (the_axes s a))
                         (viewHeight (the_axes s a)) h) vx vy a)
           (components (self s))
           (with_self (moved x2 y2 (moved x1 y1 (self s))) s))
    | _, _ => (Raise TypeError, with_self (moved x2 y2 (moved x1 y1 (self s))) s)
    end) as E2.
  { rewrite update_run. cbn zeta.
    change (axes (self s1)) with (axes (self s)).
    change (vertices s1) with (vertices s). by rewrite Ea, Eh. }
  destruct (pos_x (self s1)) as [vx1|] eqn:Ex1;
    [|rewrite Hu; cbn [snd]; by rewrite E2].
  destruct (pos_y (self s1)) as [vy1|] eqn:Ey1;
    [|rewrite Hu; cbn [snd]; by rewrite E2].
  rewrite Hu. cbn [snd]. set (t1 := placement _ vx1 vy1 a).
  rewrite update_run. cbn zeta.
  rewrite transform_all_self, transform_all_vertices.
  change (axes (self s1)) with (axes (self s)).
  change (vertices s1) with (vertices s). rewrite Ea, Eh.
  rewrite !transform_all_the_axes.
  change (the_axes s1 a) with (the_axes s a).
  change (components (self s1)) with (components (self s)).
  change (self s1) with (moved x1 y1 (self s)).
  cbn [self with_self].
  destruct (pos_x (moved x2 y2 _)) as [vx|] eqn:Ex2;
    [|exfalso; cbn in Ex1, Ex2; destruct x2; [done|congruence]].
  destruct (pos_y (moved x2 y2 _)) as [vy|] eqn:Ey2;
    [|exfalso; cbn in Ey1, Ey2; destruct y2; [done|congruence]].
  f_equal. rewrite <- transform_all_with_self, transform_all_overwrite.
  reflexivity.
Qed.

(** ** What [applyTo] does to the Axes *)

Lemma applyTo_Return_inv a x y s s' :
  applyTo a x y s = (Return (), s') →
  ∃ h, intrinsic_height (vertices s) = Some h
       ∧ for_each (components (self s)) (λ c, a' ← self_axes; add_patch a' c)
           (transform_all
              (placement (horizontal_scale (viewWidth (the_axes s a))
                            (viewHeight (the_axes s a)) h) x y a)
              (components (self s)) (placed a x y s))
         = (Return (), s').
Proof.
  rewrite applyTo_run, update_placed.
  destruct (intrinsic_height (vertices s)) as [h|]; [|done].
  rewrite transform_all_self. intros E. by exists h.
Qed.

Lemma attach_loop_children cs s s' a :
  axes (self s) = Some a →
  for_each cs (λ c, a' ← self_axes; add_patch a' c) s = (Return (), s') →
  children (the_axes s' a) = children (the_axes s a) ++ cs
  ∧ (∀ c, c ∈ cs → artist_axes (patch s' c) = Some a)
  ∧ (∀ c, artist_axes (patch s c) = Some a → artist_axes (patch s' c) = Some a).
Proof.
  revert s. induction cs as [|c0 cs IH]; intros s Ha Hrun.
  - cbn in Hrun. injection Hrun as <-. rewrite app_nil_r. split; [done|].
    split; [|done]. intros c Hc. by apply elem_of_nil in Hc.
  - cbn [for_each] in Hrun. rewrite !Py_bind_unfold in Hrun.
    unfold self_axes at 1 in Hrun. rewrite Ha in Hrun.
    unfold add_patch at 1 in Hrun. cbv zeta in Hrun.
    set (s1 := with_axes a _ _) in Hrun.
    assert (for_each cs (λ c, a' ← self_axes; add_patch a' c) s1 = (Return (), s'))
      as Hrun1.
    { destruct (artist_axes (patch s c0)) as [a'|]; [|done]. by case_decide. }
    clear Hrun. apply IH in Hrun1 as (Hch & Hnew & Hold); [|done].
    assert (artist_axes (patch s1 c0) = Some a) as H0.
    { unfold s1. change (patch (with_axes ?a ?v ?s) c0) with (patch s c0).
      by rewrite patch_with_patch, decide_True. }
    split; [|split].
    + rewrite Hch. unfold s1. rewrite the_axes_with_axes, decide_True by done.
      cbn [children]. change (the_axes (with_patch ?p ?v ?s) a) with (the_axes s a).
      by rewrite <- app_assoc.
    + intros c [->|Hc]%elem_of_cons; [by apply Hold|by apply Hnew].
    + intros c Hc. apply Hold. unfold s1.
      change (patch (with_axes ?a ?v ?s) c) with (patch s c).
      rewrite patch_with_patch. by case_decide; subst.
Qed.

Lemma attach_loop_other_axes cs s a a' :
  axes (self s) = Some a → a' ≠ a →
  the_axes (for_each cs (λ c, a'' ← self_axes; add_patch a'' c) s).2 a'
  = the_axes s a'.
Proof.
  intros Ha Hne.
  apply (for_each_inv (λ s', self s' = self s ∧ the_axes s' a' = the_axes s a'));
    [done|].
  intros c s1 _ [E1 E2]. rewrite Py_bind_unfold. unfold self_axes.
  rewrite E1, Ha. unfold add_patch. cbv zeta.
  assert (∀ v w, the_axes (with_axes a v (with_patch c w s1)) a' = the_axes s a')
    as Hacc.
  { intros v w. rewrite the_axes_with_axes, decide_False by done.
    by change (the_axes (with_patch ?p ?v ?s) a') with (the_axes s a'). }
  destruct (artist_axes (patch s1 c)) as [a0|]; [case_decide|]; by cbn.
Qed.

(** X6.  [applyTo(axes, x, y)] returns when the Drawing has a component, every
    component has a vertex and none belongs to another Axes; the components
    are then appended, in their order, to the children of the Axes, each one
    belongs to the Axes, and no other Axes has changed. *)
Theorem applyTo_appends s a x y :
  components (self s) ≠ [] → has_vertices s →
  (∀ c, c ∈ components (self s) →
        artist_axes (patch s c) = None ∨ artist_axes (patch s c) = Some a) →
  ∃ s', applyTo a x y s = (Return (), s')
        ∧ children (the_axes s' a) = children (the_axes s a) ++ components (self s)
        ∧ (∀ c, c ∈ components (self s) → artist_axes (patch s' c) = Some a)
        ∧ (∀ a', a' ≠ a → the_axes s' a' = the_axes s a').
Proof.
  intros Hne Hv Hown. pose proof (applyTo_Return s a x y Hne Hv Hown) as Hret.
  destruct (applyTo a x y s) as [o s'] eqn:Hrun. cbn in Hret. subst o.
  exists s'. split; [done|].
  pose proof Hrun as (h & Eh & Hloop)%applyTo_Return_inv.
  set (s1 := transform_all _ _ _) in Hloop.
  assert (axes (self s1) = Some a) as Ha by (unfold s1; by rewrite transform_all_self).
  destruct (attach_loop_children _ _ _ a Ha Hloop) as (Hch & Hnew & _).
  split; [|split; [done|]].
  - rewrite Hch. unfold s1. by rewrite transform_all_the_axes.
  - intros a' Hn. pose proof (attach_loop_other_axes (components (self s)) s1 a a' Ha Hn) as E.
    rewrite Hloop in E. cbn [snd] in E. rewrite E. unfold s1.
    by rewrite transform_all_the_axes.
Qed.

(** X7.  [applyTo(axes, x, y)] on a Drawing without components, or with a
    component without vertices, raises the ValueError of [height()]; by then
    the Axes and the position are stored in the Drawing, and nothing else has
    changed: no transform is set and no patch is added to the Axes. *)
Theorem applyTo_fails_after_storing s a x y :
  components (self s) = [] ∨ ¬ has_vertices s →
  applyTo a x y s =
    (Raise ValueError,
     mkState (mkDrawing (components (self s)) (Some a) (Some x) (Some y))
       (patches s) (figure s)).
Proof.
  intros Hbad. rewrite applyTo_run, update_placed.
  pose proof (intrinsic_height_defined s) as Hd.
  destruct (intrinsic_height (vertices s)) as [h|]; [|done].
  destruct Hd as [[Hne Hv] _]; [done|]. by destruct Hbad.
Qed.

(** ** What [remove] does, and what it leaves *)

Lemma list_remove_middle c (pre post : list PatchId) :
  c ∉ pre → list_remove c (pre ++ c :: post) = Some (pre ++ post).
Proof.
  induction pre as [|w pre IH]; intros Hc; cbn [list_remove app].
  - by rewrite decide_True.
  - apply not_elem_of_cons in Hc as [Hne Hc].
    rewrite decide_False by done. by rewrite IH.
Qed.


Lemma Artist_remove_frame p s : remove_frame s (Artist_remove p s).2.
Proof.
  unfold Artist_remove. cbv zeta.
  destruct (remove_method (patch s p)) as [a|] eqn:Erm; [|by repeat split].
  destruct (list_remove p _) as [l|]; [|by repeat split].
  cbn [snd]. split; [done|]. split.
  - intros a'. change (the_axes (with_patch ?p ?v ?s) a') with (the_axes s a').
    rewrite the_axes_with_axes. by case_decide; subst.
  - intros c. rewrite patch_with_patch.
    change (patch (with_axes ?a ?v ?s) c) with (patch s c).
    case_decide; subst; by cbn.
Qed.

Lemma remove_frame_trans s1 s2 s3 :
  remove_frame s1 s2 → remove_frame s2 s3 → remove_frame s1 s3.
Proof.
  intros (E1 & B1 & P1) (E2 & B2 & P2). split; [congruence|]. split.
  - intros a. by rewrite B2.
  - intros c. destruct (P1 c) as (? & ? & ?), (P2 c) as (? & ? & ?).
    repeat split; congruence.
Qed.

Lemma remove_frames s : remove_frame s (remove s).2.
Proof.
  rewrite remove_run.
  apply (for_each_inv (remove_frame s)); [by repeat split|].
  intros c s' _ Hs'. eapply remove_frame_trans; [done|apply Artist_remove_frame].
Qed.

Lemma remove_loop_children cs s a (pre post : list PatchId) :
  (∀ c, c ∈ cs → c ∉ pre) →
  (∀ c, c ∈ cs → remove_method (patch s c) = Some a) →
  children (the_axes s a) = pre ++ cs ++ post →
  ∃ s', for_each cs Artist_remove s = (Return (), s')
        ∧ children (the_axes s' a) = pre ++ post.
Proof.
  revert s. induction cs as [|c0 cs IH]; intros s Hpre Hrm Hch.
  - by exists s.
  - cbn [for_each]. rewrite Py_bind_unfold. unfold Artist_remove at 1. cbv zeta.
    rewrite (Hrm c0) by left. rewrite Hch. cbn [app].
    rewrite list_remove_middle by (apply Hpre; left).
    set (s1 := with_patch c0 _ _).
    destruct (IH s1) as (s' & Hrun & Hch').
    + intros c Hc. apply Hpre. by right.
    + intros c Hc. unfold s1. rewrite patch_with_patch.
      change (patch (with_axes ?a ?v ?s) c) with (patch s c).
      case_decide; subst; cbn; [done|]. apply Hrm. by right.
    + unfold s1. change (the_axes (with_patch ?p ?v ?s) a) with (the_axes s a).
      by rewrite the_axes_with_axes, decide_True.
    + by exists s'.
Qed.

Lemma applyTo_Return_facts a x y s s' :
  applyTo a x y s = (Return (), s') →
  components (self s) ≠ [] ∧ has_vertices s
  ∧ self s' = self (placed a x y s)
  ∧ (∀ c, get_xy (patch s' c) = get_xy (patch s c))
  ∧ children (the_axes s' a) = children (the_axes s a) ++ components (self s)
  ∧ (∀ c, c ∈ components (self s) →
          remove_method (patch s' c) = Some a ∧ artist_axes (patch s' c) = Some a).
Proof.
  intros Hrun. pose proof Hrun as (h & Eh & Hloop)%applyTo_Return_inv.
  destruct (vertices_defined s h Eh) as [Hne Hv].
  destruct (applyTo_state a x y s h Eh) as (E & X & _ & _).
  rewrite Hrun in E, X. cbn [snd] in E, X.
  set (s1 := transform_all _ _ _) in Hloop.
  assert (axes (self s1) = Some a) as Ha by (unfold s1; by rewrite transform_all_self).
  destruct (attach_loop_children _ _ _ a Ha Hloop) as (Hch & Hnew & _).
  destruct (attach_loop_Return _ _ _ a Ha Hloop) as (_ & Hrm & _).
  repeat split; try done.
  - rewrite Hch. unfold s1. by rewrite transform_all_the_axes.
  - by apply Hrm.
  - by apply Hnew.
Qed.

(** X8.  [remove()] after [applyTo(axes, x, y)] gives the Axes back the list of
    children it had before, when that list held none of the components. *)
Theorem remove_undoes_applyTo s a x y s1 :
  (∀ c, c ∈ components (self s) → c ∉ children (the_axes s a)) →
  applyTo a x y s = (Return (), s1) →
  ∃ s2, remove s1 = (Return (), s2)
        ∧ children (the_axes s2 a) = children (the_axes s a).
Proof.
  intros Hfresh (_ & _ & E & _ & Hch & Hc)%applyTo_Return_facts.
  rewrite remove_run, E. cbn [self placed with_self components].
  destruct (remove_loop_children (components (self s)) s1 a
              (children (the_axes s a)) []) as (s2 & Hrun & Hch2).
  - done.
  - intros c Hin. by apply Hc.
  - by rewrite app_nil_r.
  - exists s2. by rewrite app_nil_r in Hch2.
Qed.

(** X9.  A second [applyTo] on the same Axes, without [remove()] in between,
    returns and lists every component once more; one [remove()] then takes
    out one copy only, and the components are still children of the Axes. *)
Theorem reapply_leaves_components s a x y x' y' s1 :
  (∀ c, c ∈ components (self s) → c ∉ children (the_axes s a)) →
  applyTo a x y s = (Return (), s1) →
  ∃ s2 s3,
    applyTo a x' y' s1 = (Return (), s2)
    ∧ remove s2 = (Return (), s3)
    ∧ children (the_axes s3 a) = children (the_axes s a) ++ components (self s).
Proof.
  intros Hfresh (Hne & Hv & E & X & Hch & Hc)%applyTo_Return_facts.
  assert (components (self s1) = components (self s)) as Ecs by (by rewrite E).
  assert ((applyTo a x' y' s1).1 = Return ()) as Hret.
  { apply applyTo_Return.
    - by rewrite Ecs.
    - eapply has_vertices_frame; [|done|done]. by rewrite Ecs.
    - rewrite Ecs. intros c Hin. right. by apply Hc. }
  destruct (applyTo a x' y' s1) as [o s2] eqn:Hrun2. cbn in Hret. subst o.
  pose proof Hrun2 as (_ & _ & E2 & _ & Hch2 & Hc2)%applyTo_Return_facts.
  rewrite Ecs in Hch2, Hc2. rewrite Hch in Hch2.
  exists s2. rewrite remove_run, E2. cbn [self placed with_self components].
  rewrite Ecs.
  destruct (remove_loop_children (components (self s)) s2 a
              (children (the_axes s a)) (components (self s)))
    as (s3 & Hrun3 & Hch3).
  - done.
  - intros c Hin. by apply Hc2.
  - by rewrite Hch2, <- app_assoc.
  - by exists s3.
Qed.

(** X10.  [remove()] on a Drawing that has a component and whose components were
    never added to an Axes raises NotImplementedError and changes nothing. *)
Theorem remove_before_applyTo s :
  components (self s) ≠ [] →
  (∀ c, c ∈ components (self s) → remove_method (patch s c) = None) →
  remove s = (Raise NotImplementedError, s).
Proof.
  intros Hne Hrm. rewrite remove_run.
  destruct (components (self s)) as [|c cs]; [done|].
  cbn [for_each]. rewrite Py_bind_unfold. unfold Artist_remove. cbv zeta.
  by rewrite (Hrm c) by left.
Qed.


(** X12.  [remove()] leaves the Drawing's own attributes as they are, the Axes
    and the position included, and the vertices and transforms of all
    patches; so after [remove()] on an applied Drawing [update()] still
    returns. *)
Theorem update_after_remove s a x y :
  applied a s →
  ∃ s', remove s = (Return (), s')
        ∧ self s' = self s
        ∧ (∀ c, get_xy (patch s' c) = get_xy (patch s c)
                ∧ get_transform (patch s' c) = get_transform (patch s c))
        ∧ (update x y s').1 = Return ().
Proof.
  intros ((x0 & y0 & Ha & Hx & Hy) & Hne & Hv & Hreg)%applied_inv.
  destruct (remove_registered s a Hreg) as (s' & Hrun & _).
  exists s'. split; [done|].
  pose proof (remove_frames s) as (E & _ & P). rewrite Hrun in E, P. cbn [snd] in E, P.
  split; [done|]. split; [intros c; by destruct (P c) as (? & ? & _)|].
  assert (attached s' a x0 y0) as Hat' by (unfold attached; by rewrite E).
  assert (components (self s') ≠ []) as Hne' by (by rewrite E).
  assert (has_vertices s') as Hv'.
  { eapply has_vertices_frame; [|intros c; by destruct (P c) as (-> & _)|done].
    by rewrite E. }
  by destruct (update_attached s' a x0 y0 x y Hat' Hne' Hv') as (h & _ & ->).
Qed.

End Further.

(** * Further properties, in real arithmetic *)

Section Further_reals.
Local Open Scope R_scope.

Lemma highest_greatest (vss : list (list (R * R))) (t : R) :
  highest vss = Some t →
  (∃ vs v, vs ∈ vss ∧ v ∈ vs ∧ v.2 = t)
  ∧ ∀ vs v, vs ∈ vss → v ∈ vs → v.2 <= t.
Proof.
  unfold highest. destruct (mapM vertical_max vss) as [tops|] eqn:Et; [|done].
  cbn. intros [Hin Hall]%maximum_greatest. apply mapM_Some_1 in Et. split.
  - apply list_elem_of_lookup_1 in Hin as [i Hi].
    destruct (Forall2_lookup_r _ _ _ _ _ Et Hi) as (vs & Hvs & Hmax).
    apply maximum_greatest in Hmax as [Hmem _].
    apply list_elem_of_fmap in Hmem as (v & -> & Hv).
    exists vs, v. split; [by eapply list_elem_of_lookup_2|done].
  - intros vs v [i Hi]%list_elem_of_lookup_1 Hv.
    destruct (Forall2_lookup_l _ _ _ _ _ Et Hi) as (top & Htop & Hmax).
    apply maximum_greatest in Hmax as [_ Hle].
    rewrite Forall_forall in Hle, Hall.
    specialize (Hle v.2 (list_elem_of_fmap_2 snd _ _ Hv)).
    specialize (Hall top (list_elem_of_lookup_2 _ _ _ Htop)). lra.
Qed.

Lemma lowest_least (vss : list (list (R * R))) (b : R) :
  lowest vss = Some b →
  (∃ vs v, vs ∈ vss ∧ v ∈ vs ∧ v.2 = b)
  ∧ ∀ vs v, vs ∈ vss → v ∈ vs → b <= v.2.
Proof.
  unfold lowest. destruct (mapM vertical_min vss) as [bots|] eqn:Eb; [|done].
  cbn. intros [Hin Hall]%minimum_least. apply mapM_Some_1 in Eb. split.
  - apply list_elem_of_lookup_1 in Hin as [i Hi].
    destruct (Forall2_lookup_r _ _ _ _ _ Eb Hi) as (vs & Hvs & Hmin).
    apply minimum_least in Hmin as [Hmem _].
    apply list_elem_of_fmap in Hmem as (v & -> & Hv).
    exists vs, v. split; [by eapply list_elem_of_lookup_2|done].
  - intros vs v [i Hi]%list_elem_of_lookup_1 Hv.
    destruct (Forall2_lookup_l _ _ _ _ _ Eb Hi) as (bot & Hbot & Hmin).
    apply minimum_least in Hmin as [_ Hle].
    rewrite Forall_forall in Hle, Hall.
    specialize (Hle v.2 (list_elem_of_fmap_2 snd _ _ Hv)).
    specialize (Hall bot (list_elem_of_lookup_2 _ _ _ Hbot)). lra.
Qed.

(** X13.  In real arithmetic [height()] is the vertical extent of all vertices of
    all components taken together: it returns t - b where t is the y of some
    vertex and no vertex lies higher, b is the y of some vertex and no
    vertex lies lower; so it is never negative. *)
Theorem height_is_vertical_extent (s : @State R) :
  components (self s) ≠ [] → has_vertices s →
  ∃ t b,
    height s = (Return (t - b), s) ∧ 0 <= t - b
    ∧ (∃ c v, c ∈ components (self s) ∧ v ∈ get_xy (patch s c) ∧ v.2 = t)
    ∧ (∃ c v, c ∈ components (self s) ∧ v ∈ get_xy (patch s c) ∧ v.2 = b)
    ∧ ∀ c v, c ∈ components (self s) → v ∈ get_xy (patch s c) → b <= v.2 <= t.
Proof.
  intros Hne Hv.
  destruct (height_Return s Hne Hv) as (t & b & Ht & Hb & _ & Hh).
  apply highest_greatest in Ht as [(vs & v & Hvs & Hin & Et) Hhi].
  apply lowest_least in Hb as [(ws & w & Hws & Hwin & Eb) Hlo].
  unfold vertices in *.
  apply list_elem_of_fmap in Hvs as (c & -> & Hc).
  apply list_elem_of_fmap in Hws as (c' & -> & Hc').
  assert (∀ c0 v0, c0 ∈ components (self s) → v0 ∈ get_xy (patch s c0) →
                   b <= v0.2 <= t) as Hbetween.
  { intros c0 v0 Hc0 Hv0.
    pose proof (list_elem_of_fmap_2 (λ c, get_xy (patch s c)) _ _ Hc0) as Hm.
    split; [by eapply Hlo|by eapply Hhi]. }
  exists t, b. split; [done|]. split; [|split; [by exists c, v|split; [by exists c', w|done]]].
  specialize (Hbetween c v Hc Hin). lra.
Qed.

(** X14.  In real arithmetic, for a positive view and a Drawing of positive
    height: when the view grows by the factor k in width and in height, the
    horizontal scale that [scaling()] returns grows by the factor k ** (1/4),
    which for k > 1 is more than 1 and less than k: zooming out makes the
    Drawing wider in data units and narrower on the screen. *)
Theorem scaling_after_zoom (s : @State R) (a : AxesId) (x0 y0 x1 y1 w h hh k : R) :
  axes (self s) = Some a →
  viewLim_bounds (the_axes s a) = (x0, y0, w, h) →
  intrinsic_height (vertices s) = Some hh →
  0 < w → 0 < h → 0 < hh → 0 < k →
  ∃ sx,
    scaling s = (Return (sx, Q2R 1), s) ∧ 0 < sx
    ∧ (scaling (set_viewLim a (x1, y1, k * w, k * h) s)).1
      = Return (Rpower k (1 / 4) * sx, Q2R 1)
    ∧ (1 < k → 1 < Rpower k (1 / 4) < k).
Proof.
  intros Ha Hb Eh Hw Hh Hhh Hk.
  exists (horizontal_scale w h hh).
  assert (0 < hh / h / Q2R (2 # 10)) as Hbase.
  { replace (Q2R (2 # 10)) with (2 / 10) by (unfold Q2R; cbn; lra).
    apply Rdiv_lt_0_compat; [|lra]. by apply Rdiv_lt_0_compat. }
  split; [|split; [|split]].
  - rewrite scaling_run, Ha, Eh. unfold viewWidth, viewHeight. by rewrite Hb.
  - unfold horizontal_scale, heightFactor. cbn [fmul fpow fdiv lit R_FloatOps].
    apply Rmult_lt_0_compat; [done|apply exp_pos].
  - set (S := set_viewLim a (x1, y1, k * w, k * h) s).
    assert (axes (self S) = Some a) as HaS by exact Ha.
    assert (vertices S = vertices s) as HvS by reflexivity.
    assert (viewLim_bounds (the_axes S a) = (x1, y1, k * w, k * h)) as HbS.
    { unfold S, set_viewLim. by rewrite the_axes_with_axes, decide_True. }
    rewrite scaling_run, HaS, HvS, Eh. unfold viewWidth, viewHeight.
    rewrite HbS. cbn [fst snd]. do 2 f_equal.
    unfold horizontal_scale, heightFactor. cbn [fmul fpow fdiv lit R_FloatOps].
    set (e := Q2R 3 / Q2R 4).
    assert (e = 3 / 4) as Ee by (unfold e, Q2R; cbn; lra).
    replace (hh / (k * h) / Q2R (2 # 10)) with (hh / h / Q2R (2 # 10) * / k).
    2:{ field. repeat split; lra. }
    rewrite <- Rpower_mult_distr by (try done; by apply Rinv_0_lt_compat).
    assert (Rpower (/ k) e = Rpower k (- e)) as ->.
    { unfold Rpower. rewrite ln_Rinv by done. f_equal. ring. }
    assert (k = Rpower k (1 / 4) * Rpower k e) as Ek.
    { rewrite <- Rpower_plus. rewrite Ee.
      replace (1 / 4 + 3 / 4) with 1 by lra. by rewrite Rpower_1. }
    rewrite Rpower_Ropp. rewrite Ek at 1.
    pose proof (exp_pos (e * ln k)) as Hpos. fold (Rpower k e) in Hpos.
    field. lra.
  - intros Hk1.
    pose proof (Rpower_lt k 0 (1 / 4) Hk1 ltac:(lra)) as H1.
    pose proof (Rpower_lt k (1 / 4) 1 Hk1 ltac:(lra)) as H2.
    rewrite Rpower_O in H1 by done. rewrite Rpower_1 in H2 by done. done.
Qed.

End Further_reals.

(** * The further properties at the lens *)

Section Further_at_the_lens.
Local Open Scope R_scope.

Lemma lens_not_on_canvas c :
  c ∈ components (self lens) → c ∉ children (the_axes lens 0%nat).
Proof. intros _. apply not_elem_of_nil. Qed.

Lemma lens_applyTo : applyTo 0%nat 3 4 lens = (Return (), lens_applied).
Proof. reflexivity. Qed.

Lemma lens_is_applied : applied 0%nat lens_applied.
Proof. exact (applied_applyTo 0%nat lens 3 4 _ lens_not_on_canvas lens_applyTo). Qed.

Lemma applyTo_appends_witness :
  components (self lens) ≠ [] ∧ has_vertices lens
  ∧ (∀ c, c ∈ components (self lens) → artist_axes (patch lens c) = None)
  ∧ ∃ s', applyTo 0%nat 3 4 lens = (Return (), s')
          ∧ children (the_axes s' 0%nat) = [0; 1]%nat.
Proof.
  assert (components (self lens) ≠ []) as Hne by done.
  assert (has_vertices lens) as Hv by (repeat constructor; done).
  assert (∀ c, c ∈ components (self lens) → artist_axes (patch lens c) = None)
    as Hown.
  { intros c Hc. repeat (apply elem_of_cons in Hc as [->|Hc]; [reflexivity|]).
    by apply elem_of_nil in Hc. }
  split; [done|]. split; [done|]. split; [done|].
  destruct (applyTo_appends lens 0%nat 3 4 Hne Hv (λ c Hc, or_introl (Hown c Hc)))
    as (s' & Hrun & Hch & _).
  by exists s'.
Defined.

Lemma applyTo_fails_after_storing_witness :
  components (self hollow) = []
  ∧ (applyTo 0%nat 1 2 hollow).1 = Raise ValueError
  ∧ pos_x (self (applyTo 0%nat 1 2 hollow).2) = Some 1.
Proof.
  split; [reflexivity|].
  by rewrite (applyTo_fails_after_storing hollow 0%nat 1 2 (or_introl eq_refl)).
Defined.

Lemma remove_undoes_applyTo_witness :
  (∀ c, c ∈ components (self lens) → c ∉ children (the_axes lens 0%nat))
  ∧ applyTo 0%nat 3 4 lens = (Return (), lens_applied)
  ∧ children (the_axes lens_applied 0%nat) = [0; 1]%nat
  ∧ ∃ s2, remove lens_applied = (Return (), s2)
          ∧ children (the_axes s2 0%nat) = [].
Proof.
  split; [exact lens_not_on_canvas|]. split; [reflexivity|]. split; [reflexivity|].
  exact (remove_undoes_applyTo lens 0%nat 3 4 lens_applied
           lens_not_on_canvas eq_refl).
Defined.

Lemma reapply_leaves_components_witness :
  (∀ c, c ∈ components (self lens) → c ∉ children (the_axes lens 0%nat))
  ∧ applyTo 0%nat 3 4 lens = (Return (), lens_applied)
  ∧ ∃ s2 s3, applyTo 0%nat 5 6 lens_applied = (Return (), s2)
             ∧ remove s2 = (Return (), s3)
             ∧ children (the_axes s3 0%nat) = [0; 1]%nat.
Proof.
  split; [exact lens_not_on_canvas|]. split; [reflexivity|].
  exact (reapply_leaves_components lens 0%nat 3 4 5 6 lens_applied
           lens_not_on_canvas eq_refl).
Defined.

Lemma remove_before_applyTo_witness :
  components (self lens) ≠ []
  ∧ (∀ c, c ∈ components (self lens) → remove_method (patch lens c) = None)
  ∧ remove lens = (Raise NotImplementedError, lens).
Proof.
  assert (components (self lens) ≠ []) as Hne by done.
  assert (∀ c, c ∈ components (self lens) → remove_method (patch lens c) = None)
    as Hrm.
  { intros c Hc. repeat (apply elem_of_cons in Hc as [->|Hc]; [reflexivity|]).
    by apply elem_of_nil in Hc. }
  split; [done|]. split; [done|]. exact (remove_before_applyTo lens Hne Hrm).
Defined.


Lemma update_after_remove_witness :
  applied 0%nat lens_applied
  ∧ ∃ s', remove lens_applied = (Return (), s')
          ∧ (update (Some 5) None s').1 = Return ().
Proof.
  split; [exact lens_is_applied|].
  destruct (update_after_remove lens_applied 0%nat (Some 5) None lens_is_applied)
    as (s' & Hrun & _ & _ & Hu).
  by exists s'.
Defined.

Lemma height_is_vertical_extent_witness :
  components (self lens) ≠ [] ∧ has_vertices lens
  ∧ ∃ t b, height lens = (Return (t - b), lens) ∧ 0 <= t - b.
Proof.
  assert (components (self lens) ≠ []) as Hne by done.
  assert (has_vertices lens) as Hv by (repeat constructor; done).
  split; [done|]. split; [done|].
  destruct (height_is_vertical_extent lens Hne Hv) as (t & b & Hh & Hpos & _).
  by exists t, b.
Defined.

Lemma lens_applied_height : intrinsic_height (vertices lens_applied) = Some (0 - -5).
Proof.
  change (vertices lens_applied) with (vertices lens).
  unfold intrinsic_height. by rewrite lens_highest, lens_lowest.
Qed.

Lemma scaling_after_zoom_witness :
  axes (self lens_applied) = Some 0%nat
  ∧ viewLim_bounds (the_axes lens_applied 0%nat) = (-5, -5, 10, 10)
  ∧ intrinsic_height (vertices lens_applied) = Some (0 - -5)
  ∧ ∃ sx, scaling lens_applied = (Return (sx, Q2R 1), lens_applied)
          ∧ (scaling (set_viewLim 0%nat (-10, -10, 2 * 10, 2 * 10) lens_applied)).1
            = Return (Rpower 2 (1 / 4) * sx, Q2R 1)
          ∧ 1 < Rpower 2 (1 / 4) < 2.
Proof.
  split; [reflexivity|]. split; [reflexivity|]. split; [exact lens_applied_height|].
  destruct (scaling_after_zoom lens_applied 0%nat (-5) (-5) (-10) (-10) 10 10
              (0 - -5) 2 eq_refl eq_refl lens_applied_height
              ltac:(lra) ltac:(lra) ltac:(lra) ltac:(lra))
    as (sx & Hs & _ & Hz & Hk).
  exists sx. split; [done|]. split; [done|]. apply Hk. lra.
Defined.

End Further_at_the_lens.
